(** * Stream Agency: scheduler, usage accounting and billing

    A shallow embedding of [stream_agency.py] and the properties of its
    scheduler, usage accounting, billing sweep and enrollment paths.

    Conventions of the embedding.
    - A Python [str] is a Rocq [string], one [ascii] per code point; the
      model covers code points below 256, on which [str.lower] and
      [str.strip] are written out exactly.
    - A Python [int] is a [Z]; a [float] (SQLite [REAL]) is a primitive
      binary64 [float].
    - [None] / SQL [NULL] is [None] of an [option].
    - A table with a primary key is a [gmap] from the key to the rest of
      the row; a table used as a log is a list in insertion order.
    - Everything read from outside (clock, random draws, HTTP replies,
      the settlement process) is a field of the [world] record handed to
      a tick. *)

From Stdlib Require Import ZArith String Ascii List Bool Lia.
From Stdlib Require Import Floats.PrimFloat.
From Stdlib Require Import DecimalString.
From Stdlib Require Uint63.
From stdpp Require Import base option list gmap strings sorting.

Local Open Scope string_scope.
Local Open Scope Z_scope.

(** ** Python strings *)

Module PyStr.

(** [s[:n]] *)
Fixpoint slice_to (n : nat) (s : string) : string :=
  match n, s with
  | O, _ => EmptyString
  | S _, EmptyString => EmptyString
  | S n', String c s' => String c (slice_to n' s')
  end.

(** [s[n:]] *)
Fixpoint slice_from (n : nat) (s : string) : string :=
  match n, s with
  | O, _ => s
  | S _, EmptyString => EmptyString
  | S n', String _ s' => slice_from n' s'
  end.

(** [s.startswith(p)] *)
Fixpoint startswith (p s : string) : bool :=
  match p, s with
  | EmptyString, _ => true
  | String _ _, EmptyString => false
  | String a p', String b s' => Ascii.eqb a b && startswith p' s'
  end.

(** [needle in hay] *)
Fixpoint contains (needle hay : string) : bool :=
  startswith needle hay ||
  match hay with
  | EmptyString => false
  | String _ hay' => contains needle hay'
  end.

(** [str.lower] on one code point below 256: A-Z and the Latin-1
    capitals U+00C0..U+00DE (U+00D7 excepted) move up by 32. *)
Definition lower_char (c : ascii) : ascii :=
  let n := nat_of_ascii c in
  if ((65 <=? n) && (n <=? 90))%nat then ascii_of_nat (n + 32)
  else if ((192 <=? n) && (n <=? 222) && negb (n =? 215))%nat
       then ascii_of_nat (n + 32)
  else c.

Fixpoint lower (s : string) : string :=
  match s with
  | EmptyString => EmptyString
  | String c s' => String (lower_char c) (lower s')
  end.

(** [str.isspace] on one code point below 256. *)
Definition isspace (c : ascii) : bool :=
  let n := nat_of_ascii c in
  (((9 <=? n) && (n <=? 13)) || ((28 <=? n) && (n <=? 32))
   || (n =? 133) || (n =? 160))%nat.

Fixpoint lstrip (s : string) : string :=
  match s with
  | EmptyString => EmptyString
  | String c s' => if isspace c then lstrip s' else s
  end.

Fixpoint rstrip (s : string) : string :=
  match s with
  | EmptyString => EmptyString
  | String c s' =>
      match rstrip s' with
      | EmptyString => if isspace c then EmptyString else String c EmptyString
      | r => String c r
      end
  end.

(** [s.strip()] *)
Definition strip (s : string) : string := rstrip (lstrip s).

(** [str(n)] for an [int]. *)
Definition of_int (n : Z) : string := NilZero.string_of_int (Z.to_int n).

(** [bool(s)]: the empty string is falsy. *)
Definition truthy (s : string) : bool :=
  match s with EmptyString => false | _ => true end.

(** [a or b] on strings. *)
Definition or (a b : string) : string := if truthy a then a else b.

End PyStr.

(** ** JSON values as [json.loads] builds them *)

#[warnings="-register-all"]
Inductive json : Type :=
  | JNull
  | JBool (b : bool)
  | JInt (n : Z)
  | JFloat (f : float)
  | JStr (s : string)
  | JArr (items : list json)
  | JObj (fields : list (string * json)).

(** The top-level object of a reply is a [dict]; the code only calls
    [dict.get] on it. *)
Abbreviation pydict := (gmap string json).

(** [bool(v)] *)
Definition truthy (v : json) : bool :=
  match v with
  | JNull => false
  | JBool b => b
  | JInt n => negb (n =? 0)
  | JFloat f => negb (PrimFloat.eqb f PrimFloat.zero)
  | JStr s => PyStr.truthy s
  | JArr items => match items with [] => false | _ => true end
  | JObj fields => match fields with [] => false | _ => true end
  end.

(** [d.get(k)]: the value, or [None] (here [JNull]) when the key is
    missing. *)
Definition dict_get (d : pydict) (k : string) : json :=
  default JNull (d !! k).

(** [a or b] *)
Definition py_or (a b : json) : json := if truthy a then a else b.

(** [isinstance(v, int)]; [bool] is a subclass of [int] in Python, so
    [True] and [False] pass the test and count as 1 and 0. *)
Definition as_int (v : json) : option Z :=
  match v with
  | JInt n => Some n
  | JBool b => Some (if b then 1 else 0)
  | _ => None
  end.

(** [_extract_end_stream_ms]; the argument is [dict | None] as the
    signature declares. *)
Definition _extract_end_stream_ms (parsed : option pydict) : option Z :=
  match parsed with
  | None => None
  | Some d =>
      if decide (size d = 0%nat) then None
      else as_int (py_or (dict_get d "end_stream")
                         (dict_get d "can_stream_again_at"))
  end.

(** [if end_stream_ms:] on an [int | None]. *)
Definition opt_truthy (v : option Z) : bool :=
  match v with
  | Some n => negb (n =? 0)
  | None => false
  end.

(** [int / float] operand conversion, for magnitudes below 2^63 (the
    range of an SQLite [INTEGER]). *)
Definition float_of_int (n : Z) : float :=
  if n <? 0 then PrimFloat.opp (PrimFloat.of_uint63 (Uint63.of_Z (- n)))
  else PrimFloat.of_uint63 (Uint63.of_Z n).

(** [l[i]] with Python's negative indices; [None] is [IndexError]. *)
Definition py_index {A} (l : list A) (i : Z) : option A :=
  let n := Z.of_nat (length l) in
  if 0 <=? i then l !! Z.to_nat i
  else if - n <=? i then l !! Z.to_nat (n + i)
  else None.

(** ** Configuration *)

Record Config : Type := {
  lead_seconds : Z;
  jitter_seconds : Z;
  reward_per_window : float;
  poll_interval_seconds : Z;
  stream_url : string;
  billing_enabled : bool;
  escrow_contract : option string;
  operator_pem : option string;
  billing_proxy : string;
  billing_chain : string;
  billing_gas_limit : Z;
  billing_gas_price : Z;
  epoch_api_url : string;
  intake_probe_stream : bool
}.

(** ** Tables of [init_db] *)

(** A row of [agents]; the [id] column is the key of the table. *)
Record agent : Type := {
  address : string;
  stream_signature : string;
  fee_bps : Z;
  status : string;
  expected_end_ms : option Z;
  next_attempt_ms : option Z;
  retry_step : Z;
  success_count : Z;
  failure_count : Z;
  fee_due_claw : float;
  last_success_ms : option Z;
  last_error : option string;
  created_ms : Z;
  updated_ms : Z
}.

(** A row of [attempts]; [at_ok] is the 0/1 column [ok]. *)
Record attempt : Type := {
  at_agent_id : Z;
  at_attempted_ms : Z;
  at_ok : bool;
  at_status_code : Z;
  at_reason : string;
  at_end_stream_ms : option Z;
  at_response_body : string
}.

(** A row of [usage_windows], keyed by [(agent_id, epoch)]; [uw_billed]
    is the 0/1 column [billed]. *)
Record usage_window : Type := {
  uw_windows : Z;
  uw_billed : bool;
  uw_billed_at_ms : option Z;
  uw_last_error : option string
}.

(** A row of [billing_attempts]. *)
Record billing_attempt : Type := {
  ba_agent_id : Z;
  ba_epoch : Z;
  ba_windows : Z;
  ba_attempted_ms : Z;
  ba_ok : bool;
  ba_return_code : Z;
  ba_stdout : string;
  ba_stderr : string
}.

(** The database file. [agents_seq] is the [AUTOINCREMENT] counter of
    [agents]: the largest id ever handed out. *)
Record store : Type := {
  agents : gmap Z agent;
  agents_seq : Z;
  attempts : list attempt;
  usage_windows : gmap (Z * Z) usage_window;
  billing_attempts : list billing_attempt
}.

(** [init_db] on a new file. *)
Definition empty_store : store :=
  {| agents := ∅; agents_seq := 0; attempts := [];
     usage_windows := ∅; billing_attempts := [] |}.

(** A connection: what is committed to the file, and what the
    connection sees, pending transaction included. *)
Record conn : Type := {
  durable : store;
  working : store
}.

Definition connect_db (s : store) : conn := {| durable := s; working := s |}.

(** What is left of a connection whose process stops, or whose
    transaction is rolled back: the committed file. *)
Definition rollback (c : conn) : conn :=
  {| durable := durable c; working := durable c |}.

(** ** The outside world *)

(** Places where the code reads the clock or draws a random number. *)
Inductive site : Type :=
  | AtEnroll
  | AtProbeUpdate
  | AtSetStatus
  | AtTickStart
  | AtAttempt (agent_id : Z)
  | AtBillingAttempt (agent_id epoch : Z)
  | AtBilled (agent_id epoch : Z).

(** The tuple [_post_stream] returns. *)
Record reply : Type := {
  r_ok : bool;
  r_status : Z;
  r_body : string;
  r_parsed : option pydict
}.

(** [subprocess.CompletedProcess] with captured text streams. *)
Record completed_process : Type := {
  returncode : Z;
  stdout : string;
  stderr : string
}.

Record world : Type := {
  (** [now_ms()] at a site *)
  w_now_ms : site -> Z;
  (** the random draw behind [random.randint] at a site *)
  w_random : site -> Z;
  (** the HTTP exchange of [_post_stream]: url, signature and address
      of the payload *)
  w_stream_endpoint : string -> string -> string -> reply;
  (** [get_chain_epoch]: the epoch, or the text of the exception *)
  w_get_chain_epoch : string -> Z + string;
  (** [subprocess.run(cmd, capture_output=True, text=True)] *)
  w_subprocess_run : list string -> completed_process
}.

(** [random.randint(lo, hi)]: some integer of [lo..hi]; the draw of the
    world is brought into the range. *)
Definition randint (w : world) (at_ : site) (lo hi : Z) : Z :=
  Z.max lo (Z.min hi (w_random w at_)).

(** ** Database code as a state and exception monad *)

Inductive result (A : Type) : Type :=
  | Ok (a : A)
  | Raise (msg : string).
Arguments Ok {A} a.
Arguments Raise {A} msg.

Definition Db (A : Type) : Type := conn -> conn * result A.

Definition ret {A} (a : A) : Db A := fun c => (c, Ok a).

Definition raise {A} (msg : string) : Db A := fun c => (c, Raise msg).

Definition bind {A B} (m : Db A) (k : A -> Db B) : Db B :=
  fun c =>
    match m c with
    | (c', Ok a) => k a c'
    | (c', Raise msg) => (c', Raise msg)
    end.

(** [conn.execute] of a statement that writes: it changes what the
    connection sees and leaves the file as it is. *)
Definition execute (f : store -> store) : Db unit :=
  fun c => ({| durable := durable c; working := f (working c) |}, Ok tt).

(** [conn.execute] of a [SELECT]. *)
Definition query {A} (q : store -> A) : Db A :=
  fun c => (c, Ok (q (working c))).

(** [conn.commit()] *)
Definition commit : Db unit :=
  fun c => ({| durable := working c; working := working c |}, Ok tt).

Declare Scope db_scope.
Delimit Scope db_scope with db.
Notation "x ← y ; z" := (bind y (fun x => z))
  (at level 20, y at level 100, z at level 200, only parsing) : db_scope.
Notation "y ;; z" := (bind y (fun _ => z))
  (at level 100, z at level 200, only parsing, right associativity) : db_scope.

(** [for x in l: acc = body(x, acc)] *)
Fixpoint for_each {A S} (body : A -> S -> Db S) (l : list A) (acc : S) : Db S :=
  match l with
  | [] => ret acc
  | x :: l' => bind (body x acc) (for_each body l')
  end.

(** The connection after a call, and after a call whose exception
    reaches the top: the process ends, or the handler's [with] block
    rolls back. *)
Definition run {A} (m : Db A) (c : conn) : conn :=
  match m c with
  | (c', Ok _) => c'
  | (c', Raise _) => rollback c'
  end.

(** ** Store updates *)

Definition set_agents (m : gmap Z agent) (s : store) : store :=
  {| agents := m; agents_seq := agents_seq s; attempts := attempts s;
     usage_windows := usage_windows s;
     billing_attempts := billing_attempts s |}.

Definition set_attempts (l : list attempt) (s : store) : store :=
  {| agents := agents s; agents_seq := agents_seq s; attempts := l;
     usage_windows := usage_windows s;
     billing_attempts := billing_attempts s |}.

Definition set_usage_windows (m : gmap (Z * Z) usage_window) (s : store) : store :=
  {| agents := agents s; agents_seq := agents_seq s; attempts := attempts s;
     usage_windows := m; billing_attempts := billing_attempts s |}.

Definition set_billing_attempts (l : list billing_attempt) (s : store) : store :=
  {| agents := agents s; agents_seq := agents_seq s; attempts := attempts s;
     usage_windows := usage_windows s; billing_attempts := l |}.

(** [UPDATE agents SET ... WHERE id = ?] *)
Definition update_agent_by_id (f : agent -> agent) (aid : Z) (s : store) : store :=
  set_agents (alter f aid (agents s)) s.

(** [UPDATE agents SET ... WHERE address = ?] *)
Definition update_agents_by_address (f : agent -> agent) (addr : string)
    (s : store) : store :=
  set_agents
    ((fun a => if decide (address a = addr) then f a else a) <$> agents s) s.

(** [SELECT id FROM agents WHERE address = ?] and [fetchone()] *)
Definition select_agent_id (addr : string) (s : store) : option Z :=
  fst <$> head (filter (fun r => address r.2 = addr) (map_to_list (agents s))).

(** The largest [id] in [agents], 0 when the table is empty. *)
Definition max_agent_id (s : store) : Z :=
  foldr Z.max 0 (map_to_list (agents s)).*1.

Local Open Scope db_scope.

(** ** Enrollment and administration *)

(** [_normalize_signature] *)
Definition _normalize_signature (sig : string) : string :=
  let s := PyStr.strip sig in
  if PyStr.startswith "0x" s then PyStr.slice_from 2 s else s.

(** The row [enroll_agent] inserts for a new address. *)
Definition new_agent (addr sig : string) (fee ts : Z) : agent :=
  {| address := addr; stream_signature := sig; fee_bps := fee;
     status := "active"; expected_end_ms := None;
     next_attempt_ms := Some ts; retry_step := 0; success_count := 0;
     failure_count := 0; fee_due_claw := PrimFloat.zero;
     last_success_ms := None; last_error := None;
     created_ms := ts; updated_ms := ts |}.

(** The [DO UPDATE SET] clause of [enroll_agent]. *)
Definition reenroll (sig : string) (fee ts : Z) (a : agent) : agent :=
  {| address := address a; stream_signature := sig; fee_bps := fee;
     status := "active"; expected_end_ms := expected_end_ms a;
     next_attempt_ms := next_attempt_ms a; retry_step := retry_step a;
     success_count := success_count a; failure_count := failure_count a;
     fee_due_claw := fee_due_claw a; last_success_ms := last_success_ms a;
     last_error := last_error a; created_ms := created_ms a;
     updated_ms := ts |}.

(** [INSERT INTO agents ... ON CONFLICT(address) DO UPDATE ...]; a new
    row takes the id after the largest one ever used. *)
Definition upsert_agent (addr sig : string) (fee ts : Z) (s : store) : store :=
  match select_agent_id addr s with
  | Some aid => update_agent_by_id (reenroll sig fee ts) aid s
  | None =>
      let aid := Z.max (agents_seq s) (max_agent_id s) + 1 in
      {| agents := <[aid := new_agent addr sig fee ts]> (agents s);
         agents_seq := aid; attempts := attempts s;
         usage_windows := usage_windows s;
         billing_attempts := billing_attempts s |}
  end.

(** [enroll_agent] *)
Definition enroll_agent (w : world) (addr sig : string) (fee : Z) : Db unit :=
  let ts := w_now_ms w AtEnroll in
  execute (upsert_agent (PyStr.strip addr) (_normalize_signature sig) fee ts);;
  commit.

Definition with_status (st : string) (ts : Z) (a : agent) : agent :=
  {| address := address a; stream_signature := stream_signature a;
     fee_bps := fee_bps a; status := st;
     expected_end_ms := expected_end_ms a;
     next_attempt_ms := next_attempt_ms a; retry_step := retry_step a;
     success_count := success_count a; failure_count := failure_count a;
     fee_due_claw := fee_due_claw a; last_success_ms := last_success_ms a;
     last_error := last_error a; created_ms := created_ms a;
     updated_ms := ts |}.

(** [set_status] *)
Definition set_status (w : world) (addr st : string) : Db unit :=
  let ts := w_now_ms w AtSetStatus in
  rowcount ← query (fun s =>
    length (filter (fun r => address r.2 = addr) (map_to_list (agents s))));
  execute (update_agents_by_address (with_status st ts) addr);;
  commit;;
  if (rowcount =? 0)%nat then raise ("Agent not found: " ++ addr)%string
  else ret tt.

(** The four [DELETE] statements of [remove_agent]. *)
Definition delete_agent_rows (aid : Z) (s : store) : store :=
  {| agents := delete aid (agents s);
     agents_seq := agents_seq s;
     attempts := filter (fun r => at_agent_id r ≠ aid) (attempts s);
     usage_windows := filter (fun kv => kv.1.1 ≠ aid) (usage_windows s);
     billing_attempts :=
       filter (fun r => ba_agent_id r ≠ aid) (billing_attempts s) |}.

(** [remove_agent] *)
Definition remove_agent (addr : string) : Db unit :=
  row ← query (select_agent_id addr);
  match row with
  | None => raise ("Agent not found: " ++ addr)%string
  | Some aid => execute (delete_agent_rows aid);; commit
  end.

(** ** The stream client *)

(** [_post_stream]: the payload carries the normalized signature. *)
Definition _post_stream (w : world) (url addr sig : string) : reply :=
  w_stream_endpoint w url (_normalize_signature sig) addr.

(** The [reason] both callers of [_post_stream] derive from a reply. *)
Definition stream_reason (r : reply) : string :=
  if negb (r_ok r) && (r_status r =? 403)
     && PyStr.contains "already streaming" (PyStr.lower (r_body r))
  then "already_streaming"
  else if r_ok r then "ok" else "error".

(** [_record_attempt] *)
Definition _record_attempt (w : world) (aid : Z) (ok : bool) (status_code : Z)
    (reason : string) (end_stream_ms : option Z) (response_body : string)
    : Db unit :=
  execute (fun s =>
    set_attempts
      (attempts s ++
       [{| at_agent_id := aid;
           at_attempted_ms := w_now_ms w (AtAttempt aid);
           at_ok := ok;
           at_status_code := status_code;
           at_reason := reason;
           at_end_stream_ms := end_stream_ms;
           at_response_body := PyStr.slice_to 4000 response_body |}]) s).

(** [_increment_usage_window]: insert [(agent_id, epoch, 1, 0)], or on
    conflict add one to [windows]. *)
Definition bump_windows (u : usage_window) : usage_window :=
  {| uw_windows := uw_windows u + 1; uw_billed := uw_billed u;
     uw_billed_at_ms := uw_billed_at_ms u;
     uw_last_error := uw_last_error u |}.

Definition first_window : usage_window :=
  {| uw_windows := 1; uw_billed := false; uw_billed_at_ms := None;
     uw_last_error := None |}.

Definition _increment_usage_window (aid epoch : Z) : Db unit :=
  execute (fun s =>
    set_usage_windows
      (partial_alter
         (fun o => Some (from_option bump_windows first_window o))
         (aid, epoch) (usage_windows s)) s).

(** [_next_planned_attempt] *)
Definition _next_planned_attempt (w : world) (at_ : site)
    (end_stream_ms lead_seconds jitter_seconds : Z) : Z :=
  let jitter_ms := randint w at_ 0 (Z.max 0 jitter_seconds * 1000) in
  end_stream_ms - lead_seconds * 1000 + jitter_ms.

(** [_fee_for_success] *)
Definition _fee_for_success (reward_per_window : float) (fee_bps : Z) : float :=
  (reward_per_window * (float_of_int fee_bps / 10000))%float.

(** [_schedule_retry]; [None] is the [IndexError] of [delays[idx]]. *)
Definition _schedule_retry (ts_ms retry_step : Z) : option (Z * Z) :=
  let delays := [30; 60; 120] in
  let len := Z.of_nat (length delays) in
  let idx := Z.min retry_step (len - 1) in
  match (if retry_step <? len then py_index delays idx else Some 180) with
  | Some delay => Some (ts_ms + delay * 1000, retry_step + 1)
  | None => None
  end.

(** ** The stream pass *)

(** The dict [process_due_agents] returns. *)
Record stream_stats : Type := {
  st_processed : Z;
  st_ok : Z;
  st_fail : Z;
  st_usage_windows_added : Z
}.

(** The [SET] clause after a successful arm. *)
Definition arm_success_row (end_stream_ms next_attempt : Z) (fee : float)
    (ts_ms : Z) (a : agent) : agent :=
  {| address := address a; stream_signature := stream_signature a;
     fee_bps := fee_bps a; status := status a;
     expected_end_ms := Some end_stream_ms;
     next_attempt_ms := Some next_attempt;
     retry_step := 0;
     success_count := success_count a + 1;
     failure_count := failure_count a;
     fee_due_claw := (fee_due_claw a + fee)%float;
     last_success_ms := Some ts_ms;
     last_error := None;
     created_ms := created_ms a;
     updated_ms := ts_ms |}.

(** The [SET] clause after an "already streaming" reply with an end. *)
Definition resync_row (end_stream_ms next_attempt ts_ms : Z) (a : agent) : agent :=
  {| address := address a; stream_signature := stream_signature a;
     fee_bps := fee_bps a; status := status a;
     expected_end_ms := Some end_stream_ms;
     next_attempt_ms := Some next_attempt;
     retry_step := 0;
     success_count := success_count a;
     failure_count := failure_count a;
     fee_due_claw := fee_due_claw a;
     last_success_ms := last_success_ms a;
     last_error := last_error a;
     created_ms := created_ms a;
     updated_ms := ts_ms |}.

(** The [SET] clause of the failure branch. *)
Definition backoff_row (retry_at next_retry_step : Z) (err : string)
    (ts_ms : Z) (a : agent) : agent :=
  {| address := address a; stream_signature := stream_signature a;
     fee_bps := fee_bps a; status := status a;
     expected_end_ms := expected_end_ms a;
     next_attempt_ms := Some retry_at;
     retry_step := next_retry_step;
     success_count := success_count a;
     failure_count := failure_count a + 1;
     fee_due_claw := fee_due_claw a;
     last_success_ms := last_success_ms a;
     last_error := Some err;
     created_ms := created_ms a;
     updated_ms := ts_ms |}.

(** The text stored in [agents.last_error]:
    [f"{status_code}: {body[:300]}"]. *)
Definition failure_text (status_code : Z) (body : string) : string :=
  (PyStr.of_int status_code ++ ": " ++ PyStr.slice_to 300 body)%string.

(** The branch under [if ok and end_stream_ms:]. *)
Definition on_arm_success (w : world) (cfg : Config) (chain_epoch : option Z)
    (ts_ms aid fee_bps_ end_stream_ms : Z) (stats : stream_stats)
    : Db stream_stats :=
  let fee := _fee_for_success (reward_per_window cfg) fee_bps_ in
  let next_attempt :=
    _next_planned_attempt w (AtAttempt aid) end_stream_ms
      (lead_seconds cfg) (jitter_seconds cfg) in
  execute (update_agent_by_id
             (arm_success_row end_stream_ms next_attempt fee ts_ms) aid);;
  added ← match chain_epoch with
          | Some epoch =>
              _increment_usage_window aid epoch;;
              ret (st_usage_windows_added stats + 1)
          | None => ret (st_usage_windows_added stats)
          end;
  ret {| st_processed := st_processed stats; st_ok := st_ok stats + 1;
         st_fail := st_fail stats; st_usage_windows_added := added |}.

(** The branch under [if reason == "already_streaming" and end_stream_ms:]. *)
Definition on_already_streaming (w : world) (cfg : Config)
    (ts_ms aid end_stream_ms : Z) (stats : stream_stats) : Db stream_stats :=
  let next_attempt :=
    _next_planned_attempt w (AtAttempt aid) end_stream_ms
      (lead_seconds cfg) (jitter_seconds cfg) in
  execute (update_agent_by_id
             (resync_row end_stream_ms next_attempt ts_ms) aid);;
  ret {| st_processed := st_processed stats; st_ok := st_ok stats + 1;
         st_fail := st_fail stats;
         st_usage_windows_added := st_usage_windows_added stats |}.

(** The rest of the loop body, reached by every other reply. *)
Definition on_failure (ts_ms aid retry_step_ status_code : Z) (body : string)
    (stats : stream_stats) : Db stream_stats :=
  match _schedule_retry ts_ms retry_step_ with
  | None => raise "list index out of range"
  | Some (retry_at, next_retry_step) =>
      execute (update_agent_by_id
                 (backoff_row retry_at next_retry_step
                    (failure_text status_code body) ts_ms) aid);;
      ret {| st_processed := st_processed stats; st_ok := st_ok stats;
             st_fail := st_fail stats + 1;
             st_usage_windows_added := st_usage_windows_added stats |}
  end.

(** One iteration of [for agent in due_agents]; [row] is the agent as
    the [SELECT] before the loop read it. *)
Definition process_agent (w : world) (cfg : Config) (chain_epoch : option Z)
    (ts_ms : Z) (row : Z * agent) (stats0 : stream_stats) : Db stream_stats :=
  let stats :=
    {| st_processed := st_processed stats0 + 1; st_ok := st_ok stats0;
       st_fail := st_fail stats0;
       st_usage_windows_added := st_usage_windows_added stats0 |} in
  let aid := row.1 in
  let r := _post_stream w (stream_url cfg) (address row.2)
             (stream_signature row.2) in
  let end_stream_ms := _extract_end_stream_ms (r_parsed r) in
  let reason := stream_reason r in
  _record_attempt w aid (r_ok r) (r_status r) reason end_stream_ms (r_body r);;
  match end_stream_ms with
  | Some e =>
      if r_ok r && negb (e =? 0) then
        on_arm_success w cfg chain_epoch ts_ms aid (fee_bps row.2) e stats
      else if String.eqb reason "already_streaming" && negb (e =? 0) then
        on_already_streaming w cfg ts_ms aid e stats
      else on_failure ts_ms aid (retry_step row.2) (r_status r) (r_body r) stats
  | None =>
      on_failure ts_ms aid (retry_step row.2) (r_status r) (r_body r) stats
  end.

(** [ORDER BY COALESCE(next_attempt_ms, 0) ASC]; SQLite leaves the order
    of ties open, the model breaks them by id. *)
Definition due_before (x y : Z * agent) : Prop :=
  let kx := default 0 (next_attempt_ms x.2) in
  let ky := default 0 (next_attempt_ms y.2) in
  kx < ky ∨ (kx = ky ∧ x.1 ≤ y.1).

#[global] Instance due_before_dec x y : Decision (due_before x y).
Proof. unfold due_before; apply _. Defined.

(** [status = 'active' AND (next_attempt_ms IS NULL OR next_attempt_ms <= ?)] *)
Definition is_due (ts_ms : Z) (a : agent) : bool :=
  String.eqb (status a) "active"
  && match next_attempt_ms a with
     | None => true
     | Some n => n <=? ts_ms
     end.

(** The [SELECT] of [process_due_agents]. *)
Definition select_due_agents (ts_ms : Z) (s : store) : list (Z * agent) :=
  merge_sort due_before
    (filter (fun r => is_due ts_ms r.2 = true) (map_to_list (agents s))).

Definition no_stream_stats : stream_stats :=
  {| st_processed := 0; st_ok := 0; st_fail := 0;
     st_usage_windows_added := 0 |}.

(** [process_due_agents] *)
Definition process_due_agents (w : world) (cfg : Config)
    (chain_epoch : option Z) : Db stream_stats :=
  let ts_ms := w_now_ms w AtTickStart in
  due_agents ← query (select_due_agents ts_ms);
  stats ← for_each (process_agent w cfg chain_epoch ts_ms) due_agents
            no_stream_stats;
  commit;;
  ret stats.

(** ** The billing pass *)

(** The dict [bill_closed_epochs] returns. *)
Record billing_stats : Type := {
  bs_billing_candidates : Z;
  bs_billing_ok : Z;
  bs_billing_fail : Z
}.

(** A row of the candidate [SELECT]:
    [uw.agent_id, uw.epoch, uw.windows, a.address]. *)
Record candidate : Type := {
  cd_agent_id : Z;
  cd_epoch : Z;
  cd_windows : Z;
  cd_address : string
}.

(** [a.status IN ('active', 'paused', 'suspended')] *)
Definition billable_status (st : string) : bool :=
  bool_decide (st ∈ ["active"; "paused"; "suspended"]).

(** The [JOIN] and [WHERE] clauses on one usage row. *)
Definition candidate_of (chain_epoch : Z) (s : store)
    (kv : Z * Z * usage_window) : option candidate :=
  match agents s !! kv.1.1 with
  | Some a =>
      if negb (uw_billed kv.2) && (kv.1.2 <? chain_epoch)
         && (0 <? uw_windows kv.2) && billable_status (status a)
      then Some {| cd_agent_id := kv.1.1; cd_epoch := kv.1.2;
                   cd_windows := uw_windows kv.2; cd_address := address a |}
      else None
  | None => None
  end.

(** [ORDER BY uw.epoch ASC, uw.agent_id ASC] *)
Definition candidate_before (x y : candidate) : Prop :=
  cd_epoch x < cd_epoch y
  ∨ (cd_epoch x = cd_epoch y ∧ cd_agent_id x ≤ cd_agent_id y).

#[global] Instance candidate_before_dec x y : Decision (candidate_before x y).
Proof. unfold candidate_before; apply _. Defined.

(** The candidate [SELECT] of [bill_closed_epochs]. *)
Definition select_billing_candidates (chain_epoch : Z) (s : store)
    : list candidate :=
  merge_sort candidate_before
    (omap (candidate_of chain_epoch s) (map_to_list (usage_windows s))).

(** The command line of [_run_bill_epoch]. *)
Definition bill_epoch_cmd (cfg : Config) (escrow pem agent_address : string)
    (epoch windows : Z) : list string :=
  ["clawpy"; "contract"; "call"; escrow; "--function"; "billEpoch";
   "--arguments"; agent_address; PyStr.of_int epoch; PyStr.of_int windows;
   "--gas-limit"; PyStr.of_int (billing_gas_limit cfg);
   "--gas-price"; PyStr.of_int (billing_gas_price cfg);
   "--pem"; pem; "--chain"; billing_chain cfg;
   "--proxy"; billing_proxy cfg; "--send"].

(** [_run_bill_epoch]: a missing or empty contract or key raises before
    any process is started. *)
Definition _run_bill_epoch (w : world) (cfg : Config) (agent_address : string)
    (epoch windows : Z) : result completed_process :=
  match escrow_contract cfg, operator_pem cfg with
  | Some escrow, Some pem =>
      if PyStr.truthy escrow && PyStr.truthy pem
      then Ok (w_subprocess_run w
                 (bill_epoch_cmd cfg escrow pem agent_address epoch windows))
      else Raise "Billing requires --escrow-contract and --operator-pem"
  | _, _ => Raise "Billing requires --escrow-contract and --operator-pem"
  end.

(** [SET billed = 1, billed_at_ms = ?, last_error = NULL] *)
Definition billed_row (ts : Z) (u : usage_window) : usage_window :=
  {| uw_windows := uw_windows u; uw_billed := true;
     uw_billed_at_ms := Some ts; uw_last_error := None |}.

(** [SET last_error = ?] *)
Definition bill_failed_row (err : string) (u : usage_window) : usage_window :=
  {| uw_windows := uw_windows u; uw_billed := uw_billed u;
     uw_billed_at_ms := uw_billed_at_ms u; uw_last_error := Some err |}.

(** [UPDATE usage_windows SET ... WHERE agent_id = ? AND epoch = ?] *)
Definition update_usage_window (f : usage_window -> usage_window)
    (aid epoch : Z) (s : store) : store :=
  set_usage_windows (alter f (aid, epoch) (usage_windows s)) s.

(** [(proc.stderr or proc.stdout or "billing failed")[:300]] *)
Definition billing_error_text (proc : completed_process) : string :=
  PyStr.slice_to 300
    (PyStr.or (stderr proc) (PyStr.or (stdout proc) "billing failed")).

(** The [INSERT INTO billing_attempts]. *)
Definition record_billing_attempt (w : world) (row : candidate)
    (proc : completed_process) (s : store) : store :=
  set_billing_attempts
    (billing_attempts s ++
     [{| ba_agent_id := cd_agent_id row; ba_epoch := cd_epoch row;
         ba_windows := cd_windows row;
         ba_attempted_ms :=
           w_now_ms w (AtBillingAttempt (cd_agent_id row) (cd_epoch row));
         ba_ok := returncode proc =? 0;
         ba_return_code := returncode proc;
         ba_stdout := PyStr.slice_to 4000 (stdout proc);
         ba_stderr := PyStr.slice_to 4000 (stderr proc) |}]) s.

(** One iteration of [for row in candidates]. Next to the statistics the
    accumulator carries the rows for which the settlement process has
    been started, oldest first. *)
Definition bill_candidate (w : world) (cfg : Config) (row : candidate)
    (acc : billing_stats * list candidate)
    : Db (billing_stats * list candidate) :=
  let stats := acc.1 in
  match _run_bill_epoch w cfg (cd_address row) (cd_epoch row)
          (cd_windows row) with
  | Raise msg => raise msg
  | Ok proc =>
      let issued := (acc.2 ++ [row])%list in
      execute (record_billing_attempt w row proc);;
      if returncode proc =? 0 then
        execute (update_usage_window
                   (billed_row
                      (w_now_ms w (AtBilled (cd_agent_id row) (cd_epoch row))))
                   (cd_agent_id row) (cd_epoch row));;
        ret ({| bs_billing_candidates := bs_billing_candidates stats;
                bs_billing_ok := bs_billing_ok stats + 1;
                bs_billing_fail := bs_billing_fail stats |}, issued)
      else
        execute (update_usage_window
                   (bill_failed_row (billing_error_text proc))
                   (cd_agent_id row) (cd_epoch row));;
        ret ({| bs_billing_candidates := bs_billing_candidates stats;
                bs_billing_ok := bs_billing_ok stats;
                bs_billing_fail := bs_billing_fail stats + 1 |}, issued)
  end.

Definition no_billing_stats : billing_stats :=
  {| bs_billing_candidates := 0; bs_billing_ok := 0; bs_billing_fail := 0 |}.

(** [bill_closed_epochs], returning also the settlement calls issued. *)
Definition bill_closed_epochs_issuing (w : world) (cfg : Config)
    (chain_epoch : option Z) : Db (billing_stats * list candidate) :=
  match chain_epoch with
  | Some epoch =>
      if negb (billing_enabled cfg) then ret (no_billing_stats, [])
      else
        candidates ← query (select_billing_candidates epoch);
        acc ← for_each (bill_candidate w cfg) candidates
                ({| bs_billing_candidates := Z.of_nat (length candidates);
                    bs_billing_ok := 0; bs_billing_fail := 0 |}, []);
        commit;;
        ret acc
  | None => ret (no_billing_stats, [])
  end.

(** [bill_closed_epochs] *)
Definition bill_closed_epochs (w : world) (cfg : Config)
    (chain_epoch : option Z) : Db billing_stats :=
  acc ← bill_closed_epochs_issuing w cfg chain_epoch;
  ret acc.1.

(** ** A tick *)

(** The dict [execute_tick] returns. *)
Record tick_result : Type := {
  tr_stream : stream_stats;
  tr_billing : billing_stats;
  tr_chain_epoch : option Z;
  tr_epoch_error : option string
}.

(** The epoch snapshot at the head of [execute_tick]: the oracle is
    asked only when billing is enabled, and its exception is kept as
    text. *)
Definition epoch_snapshot (w : world) (cfg : Config)
    : option Z * option string :=
  if billing_enabled cfg then
    match w_get_chain_epoch w (epoch_api_url cfg) with
    | inl epoch => (Some epoch, None)
    | inr exc => (None, Some exc)
    end
  else (None, None).

(** [execute_tick] *)
Definition execute_tick (w : world) (cfg : Config) : Db tick_result :=
  let snap := epoch_snapshot w cfg in
  stream ← process_due_agents w cfg snap.1;
  billing ← bill_closed_epochs w cfg snap.1;
  ret {| tr_stream := stream; tr_billing := billing;
         tr_chain_epoch := snap.1; tr_epoch_error := snap.2 |}.

(** ** Enrollment paths *)

Fixpoint all_chars (p : ascii -> bool) (s : string) : bool :=
  match s with
  | EmptyString => true
  | String c s' => p c && all_chars p s'
  end.

(** The character class [[0-9a-z]]. *)
Definition is_0_9a_z (c : ascii) : bool :=
  let n := nat_of_ascii c in
  (((48 <=? n) && (n <=? 57)) || ((97 <=? n) && (n <=? 122)))%nat.

(** [_validate_agent_address]: [re.fullmatch(r"claw1[0-9a-z]+", address)],
    the literal prefix and then one or more characters of the class. *)
Definition _validate_agent_address (addr : string) : bool :=
  PyStr.startswith "claw1" addr
  && PyStr.truthy (PyStr.slice_from 5 addr)
  && all_chars is_0_9a_z (PyStr.slice_from 5 addr).

(** [0 <= fee_bps <= 10_000] *)
Definition fee_bps_in_range (fee : Z) : bool := (0 <=? fee) && (fee <=? 10000).

(** The [probe] dict of [_enroll_via_api]. *)
Record probe : Type := {
  pr_ok : bool;
  pr_status_code : Z;
  pr_reason : string;
  pr_end_stream_ms : option Z;
  pr_response_body : string
}.

(** The dict [_enroll_via_api] returns. *)
Record enrollment : Type := {
  en_address : string;
  en_fee_bps : Z;
  en_probe : probe
}.

Definition skipped_probe : probe :=
  {| pr_ok := true; pr_status_code := 0; pr_reason := "skipped";
     pr_end_stream_ms := None; pr_response_body := EmptyString |}.

(** The block under [if cfg.intake_probe_stream:]. *)
Definition probe_stream (w : world) (cfg : Config) (addr sig : string)
    : Db probe :=
  let r := _post_stream w (stream_url cfg) addr sig in
  let end_stream_ms := _extract_end_stream_ms (r_parsed r) in
  let reason := stream_reason r in
  if negb (r_ok r)
     && negb (String.eqb reason "already_streaming" && opt_truthy end_stream_ms)
  then raise ("Stream signature probe failed (status="
              ++ PyStr.of_int (r_status r) ++ "): "
              ++ PyStr.slice_to 220 (r_body r))%string
  else ret {| pr_ok := r_ok r; pr_status_code := r_status r;
              pr_reason := reason; pr_end_stream_ms := end_stream_ms;
              pr_response_body := PyStr.slice_to 500 (r_body r) |}.

(** The [SET] clause after a probe that returned an end. *)
Definition probed_row (end_stream_ms next_attempt ts : Z) (a : agent) : agent :=
  {| address := address a; stream_signature := stream_signature a;
     fee_bps := fee_bps a; status := status a;
     expected_end_ms := Some end_stream_ms;
     next_attempt_ms := Some next_attempt;
     retry_step := 0;
     success_count := success_count a;
     failure_count := failure_count a;
     fee_due_claw := fee_due_claw a;
     last_success_ms := last_success_ms a;
     last_error := None;
     created_ms := created_ms a;
     updated_ms := ts |}.

(** [_enroll_via_api] *)
Definition _enroll_via_api (w : world) (cfg : Config) (addr sig : string)
    (fee : Z) : Db enrollment :=
  if negb (_validate_agent_address addr) then raise "Invalid Claws address"
  else if negb (fee_bps_in_range fee)
  then raise "fee_bps must be between 0 and 10000"
  else if negb (PyStr.truthy sig) then raise "Missing stream signature"
  else
    pr ← (if intake_probe_stream cfg then probe_stream w cfg addr sig
          else ret skipped_probe);
    enroll_agent w addr sig fee;;
    match pr_end_stream_ms pr with
    | Some e =>
        if negb (e =? 0) then
          let ts := w_now_ms w AtProbeUpdate in
          let next_attempt :=
            _next_planned_attempt w AtProbeUpdate e
              (lead_seconds cfg) (jitter_seconds cfg) in
          execute (update_agents_by_address
                     (probed_row e next_attempt ts) addr);;
          commit
        else ret tt
    | None => ret tt
    end;;
    ret {| en_address := addr; en_fee_bps := fee; en_probe := pr |}.

(** The [/enroll] branch of [do_POST]: the fields of the payload are
    stripped before the call. *)
Definition api_enroll (w : world) (cfg : Config) (addr sig : string)
    (fee : Z) : Db enrollment :=
  _enroll_via_api w cfg (PyStr.strip addr) (PyStr.strip sig) fee.

(** The [enroll] command of [main]. *)
Definition cli_enroll (w : world) (addr sig : string) (fee : Z) : Db unit :=
  if negb (fee_bps_in_range fee)
  then raise "fee-bps must be between 0 and 10000"
  else enroll_agent w addr sig fee.

(** ** Histories *)

(** The calls that reach a database: the admin commands of the CLI and
    of the HTTP API, and the ticks of the scheduler ([tick], [run] and
    the scheduler thread of [api] all run the body of [execute_tick]).
    [enroll-from-pem] reaches the database through the same fee check
    and [enroll_agent] call as [enroll], with the address and signature
    it reads from the wallet tool. *)
Inductive op : Type :=
  | CliEnroll (w : world) (addr sig : string) (fee : Z)
  | ApiEnroll (w : world) (cfg : Config) (addr sig : string) (fee : Z)
  | Pause (w : world) (addr : string)
  | Resume (w : world) (addr : string)
  | Remove (addr : string)
  | Tick (w : world) (cfg : Config).

Definition step (c : conn) (o : op) : conn :=
  match o with
  | CliEnroll w addr sig fee => run (cli_enroll w addr sig fee) c
  | ApiEnroll w cfg addr sig fee => run (api_enroll w cfg addr sig fee) c
  | Pause w addr => run (set_status w addr "paused") c
  | Resume w addr => run (set_status w addr "active") c
  | Remove addr => run (remove_agent addr) c
  | Tick w cfg => run (execute_tick w cfg) c
  end.

Definition steps (os : list op) (c : conn) : conn := foldl step c os.

(** The usage row of an agent and epoch, as the connection sees it. *)
Definition usage_row (c : conn) (aid epoch : Z) : option usage_window :=
  usage_windows (working c) !! (aid, epoch).

(** The [agents] row of an id, as the connection sees it. *)
Definition agent_row (c : conn) (aid : Z) : option agent :=
  agents (working c) !! aid.

(** ** The vocabulary of the specification *)

(** The back-off ladder [d(k)], in seconds. *)
Definition backoff_delay (k : Z) : Z :=
  if k =? 0 then 30 else if k =? 1 then 60 else if k =? 2 then 120 else 180.

(** A field that holds a JSON integer. *)
Definition json_integer (o : option json) : option Z :=
  match o with
  | Some (JInt n) => Some n
  | _ => None
  end.

(** The extraction as the specification words it: the first integer
    among [end_stream], [can_stream_again_at], else null. *)
Definition first_integer_field (d : pydict) : option Z :=
  match json_integer (d !! "end_stream") with
  | Some n => Some n
  | None => json_integer (d !! "can_stream_again_at")
  end.




(** The row of an attempt took the branch of a successful arm. *)
Definition applied_arm_success (r : attempt) : bool :=
  at_ok r && opt_truthy (at_end_stream_ms r).

(** The row of an attempt took the "already streaming" branch. *)
Definition applied_resync (r : attempt) : bool :=
  negb (applied_arm_success r)
  && String.eqb (at_reason r) "already_streaming"
  && opt_truthy (at_end_stream_ms r).

(** The row of an attempt took the failure branch. *)
Definition applied_backoff (r : attempt) : bool :=
  negb (applied_arm_success r) && negb (applied_resync r).

(** The number of rows of the attempt log of an agent that satisfy [p]. *)
Definition count_attempts (p : attempt -> bool) (aid : Z) (l : list attempt) : Z :=
  Z.of_nat (length (filter (fun r => at_agent_id r = aid ∧ p r = true) l)).

(** ** Reasoning about database code *)

(** From a connection that satisfies [P], [m] returns [a] in a
    connection that satisfies [Q a], or raises in one that satisfies
    [E]. *)
Definition triple {A} (P : conn -> Prop) (m : Db A)
    (Q : A -> conn -> Prop) (E : conn -> Prop) : Prop :=
  forall c, P c ->
    match m c with
    | (c', Ok a) => Q a c'
    | (c', Raise _) => E c'
    end.

(** A property of the file and of the connection's view alike. *)
Definition both (I : store -> Prop) (c : conn) : Prop :=
  I (durable c) ∧ I (working c).

(** A connection with no transaction pending. *)
Definition at_rest (c : conn) : Prop := durable c = working c.

(** The counters of every agent agree with its attempt log. *)
Definition counts_ok (s : store) : Prop :=
  forall aid a, agents s !! aid = Some a ->
    success_count a = count_attempts applied_arm_success aid (attempts s)
    ∧ failure_count a = count_attempts applied_backoff aid (attempts s).

(** [FOREIGN KEY(agent_id) REFERENCES agents(id)] on the attempt log. *)
Definition attempts_refer (s : store) : Prop :=
  forall r, r ∈ attempts s -> is_Some (agents s !! at_agent_id r).

(** No back-off index is negative. *)
Definition retry_steps_ok (s : store) : Prop :=
  forall aid a, agents s !! aid = Some a -> 0 ≤ retry_step a.

(** The bounds on the texts the code stores. *)
Definition texts_ok (s : store) : Prop :=
  (forall aid a e, agents s !! aid = Some a -> last_error a = Some e ->
     exists status_code body, e = failure_text status_code body)
  ∧ (forall k u e, usage_windows s !! k = Some u -> uw_last_error u = Some e ->
       (String.length e <= 300)%nat)
  ∧ (forall r, r ∈ attempts s ->
       (String.length (at_response_body r) <= 4000)%nat)
  ∧ (forall r, r ∈ billing_attempts s ->
       (String.length (ba_stdout r) <= 4000)%nat
       ∧ (String.length (ba_stderr r) <= 4000)%nat).

Definition store_ok (s : store) : Prop :=
  counts_ok s ∧ attempts_refer s ∧ retry_steps_ok s ∧ texts_ok s.

(** ** Sample configurations, replies and worlds *)

Definition sample_cfg (billing probe : bool) : Config :=
  {| lead_seconds := 360; jitter_seconds := 0; reward_per_window := 1;
     poll_interval_seconds := 20;
     stream_url := "https://stream.claws.network/stream";
     billing_enabled := billing;
     escrow_contract := Some "claw1escrow"; operator_pem := Some "operator.pem";
     billing_proxy := "https://api.claws.network"; billing_chain := "C";
     billing_gas_limit := 25000000; billing_gas_price := 20000000000000;
     epoch_api_url := "https://api.claws.network";
     intake_probe_stream := probe |}.

(** A world whose clock stands at [now], whose stream endpoint answers
    [r] to everyone, whose oracle reports [epoch] and whose settlement
    process ends as [proc]. *)
Definition sample_world (now : Z) (r : reply) (epoch : Z + string)
    (proc : completed_process) : world :=
  {| w_now_ms := fun _ => now; w_random := fun _ => 0;
     w_stream_endpoint := fun _ _ _ => r;
     w_get_chain_epoch := fun _ => epoch;
     w_subprocess_run := fun _ => proc |}.

Definition process_exit (code : Z) (err : string) : completed_process :=
  {| returncode := code; stdout := EmptyString; stderr := err |}.

(** 200 with [{"end_stream": e}]. *)
Definition reply_armed (e : Z) : reply :=
  {| r_ok := true; r_status := 200; r_body := "{'end_stream': ...}";
     r_parsed := Some (<["end_stream" := JInt e]> ∅) |}.


(** 403 "already streaming" without a JSON body. *)
Definition reply_already_streaming_bare : reply :=
  {| r_ok := false; r_status := 403; r_body := "Already streaming";
     r_parsed := None |}.

(** A transport failure. *)
Definition reply_unreachable : reply :=
  {| r_ok := false; r_status := 0; r_body := "URLError: timed out";
     r_parsed := None |}.

(** ** What one iteration of the stream pass does to the store *)

(** The three branches of the loop body. *)
Inductive outcome : Type :=
  | ArmSuccess (end_stream_ms : Z)
  | ReSync (end_stream_ms : Z)
  | Backoff.

(** The branch the loop body takes on a reply. *)
Definition classify (r : reply) : outcome :=
  match _extract_end_stream_ms (r_parsed r) with
  | Some e =>
      if r_ok r && negb (e =? 0) then ArmSuccess e
      else if String.eqb (stream_reason r) "already_streaming" && negb (e =? 0)
      then ReSync e
      else Backoff
  | None => Backoff
  end.

(** The reply the stream endpoint gives for an agent. *)
Definition reply_for (w : world) (cfg : Config) (a : agent) : reply :=
  _post_stream w (stream_url cfg) (address a) (stream_signature a).

(** The row [_record_attempt] appends for an agent. *)
Definition logged_attempt (w : world) (cfg : Config) (row : Z * agent) : attempt :=
  let r := reply_for w cfg row.2 in
  {| at_agent_id := row.1;
     at_attempted_ms := w_now_ms w (AtAttempt row.1);
     at_ok := r_ok r;
     at_status_code := r_status r;
     at_reason := stream_reason r;
     at_end_stream_ms := _extract_end_stream_ms (r_parsed r);
     at_response_body := PyStr.slice_to 4000 (r_body r) |}.

(** The [SET] clause the iteration applies to the row of the agent;
    [None] when [_schedule_retry] raises. *)
Definition agent_update (w : world) (cfg : Config) (ts_ms : Z)
    (row : Z * agent) : option (agent -> agent) :=
  let r := reply_for w cfg row.2 in
  match classify r with
  | ArmSuccess e =>
      Some (arm_success_row e
              (_next_planned_attempt w (AtAttempt row.1) e
                 (lead_seconds cfg) (jitter_seconds cfg))
              (_fee_for_success (reward_per_window cfg) (fee_bps row.2)) ts_ms)
  | ReSync e =>
      Some (resync_row e
              (_next_planned_attempt w (AtAttempt row.1) e
                 (lead_seconds cfg) (jitter_seconds cfg)) ts_ms)
  | Backoff =>
      match _schedule_retry ts_ms (retry_step row.2) with
      | Some (retry_at, next_retry_step) =>
          Some (backoff_row retry_at next_retry_step
                  (failure_text (r_status r) (r_body r)) ts_ms)
      | None => None
      end
  end.

(** The usage table after [_increment_usage_window]. *)
Definition increment_usage (aid epoch : Z) (s : store) : store :=
  set_usage_windows
    (partial_alter (fun o => Some (from_option bump_windows first_window o))
       (aid, epoch) (usage_windows s)) s.

(** The usage increment of the iteration: on a successful arm, when the
    epoch is known. *)
Definition usage_update (w : world) (cfg : Config) (chain_epoch : option Z)
    (row : Z * agent) (s : store) : store :=
  match classify (reply_for w cfg row.2), chain_epoch with
  | ArmSuccess _, Some epoch => increment_usage row.1 epoch s
  | _, _ => s
  end.

(** The store after an iteration that returns. *)
Definition iteration (w : world) (cfg : Config) (chain_epoch : option Z)
    (ts_ms : Z) (s : store) (row : Z * agent) : store :=
  match agent_update w cfg ts_ms row with
  | Some f =>
      usage_update w cfg chain_epoch row
        (update_agent_by_id f row.1
           (set_attempts (attempts s ++ [logged_attempt w cfg row]) s))
  | None => s
  end.


(** A history that enrolls one agent through the CLI and runs one tick
    in a world that answers [r]. *)
Definition enroll_then_tick (r : reply) (cfg : Config) : conn :=
  let w := sample_world 1000 r (inl 42) (process_exit 0 "-") in
  steps [CliEnroll w "claw1abc" "0xfeed" 500; Tick w cfg]
    (connect_db empty_store).

(** A connection with one agent, enrolled at time 0 through the CLI. *)
Definition one_agent_conn : conn :=
  run (cli_enroll
         (sample_world 0 reply_unreachable (inr "down") (process_exit 0 "-"))
         "claw1abc" "0xfeed" 500)
    (connect_db empty_store).

(** The row of that agent. *)
Definition one_agent_row : agent :=
  new_agent "claw1abc" "feed" 500 0.



(** ** What one iteration of the billing pass does to the store *)

(** The escrow contract and the operator key are set, as
    [_build_config] demands when billing is enabled. *)
Definition billing_configured (cfg : Config) : bool :=
  match escrow_contract cfg, operator_pem cfg with
  | Some escrow, Some pem => PyStr.truthy escrow && PyStr.truthy pem
  | _, _ => false
  end.

(** The [SET] clause the iteration applies to the usage row. *)
Definition settlement_update (w : world) (row : candidate)
    (proc : completed_process) : usage_window -> usage_window :=
  if returncode proc =? 0
  then billed_row (w_now_ms w (AtBilled (cd_agent_id row) (cd_epoch row)))
  else bill_failed_row (billing_error_text proc).


(** The key of the usage row behind a candidate. *)
Definition candidate_key (x : candidate) : Z * Z :=
  (cd_agent_id x, cd_epoch x).


Definition candidate_call (x : candidate) : Z * Z * Z :=
  (cd_agent_id x, cd_epoch x, cd_windows x).

(** [m] keeps [I], whether it returns or raises. *)
Definition keeps {A} (I : conn -> Prop) (m : Db A) : Prop :=
  triple I m (fun _ => I) I.

(** A property of the usage row of a key, in a store. *)
Definition row_prop (P : option usage_window -> Prop) (k : Z * Z)
    (s : store) : Prop :=
  P (usage_windows s !! k).

(** The epoch a call observes: the snapshot of a tick. *)
Definition observed_epoch (o : op) : option Z :=
  match o with
  | Tick w cfg => (epoch_snapshot w cfg).1
  | _ => None
  end.

(** The epochs the oracle reported over a history, oldest first. *)
Definition reported_epochs (os : list op) : list Z := omap observed_epoch os.

Definition is_remove (o : op) : bool :=
  match o with
  | Remove _ => true
  | _ => false
  end.

(** A connection whose agent was armed once in epoch 41. *)
Definition armed_conn : conn :=
  let w := sample_world 0 (reply_armed 2000000) (inl 41) (process_exit 0 "-") in
  steps [CliEnroll w "claw1abc" "0xfeed" 500; Tick w (sample_cfg true true)]
    (connect_db empty_store).

(** A usage row that is missing or not billed. *)
Definition unbilled (o : option usage_window) : Prop :=
  forall u, o = Some u -> uw_billed u = false.

(** An update of an agent row that leaves the counters alone, keeps the
    back-off index from going negative and keeps or clears the error. *)
Definition admin_update (a a' : agent) : Prop :=
  success_count a' = success_count a
  ∧ failure_count a' = failure_count a
  ∧ (0 ≤ retry_step a -> 0 ≤ retry_step a')
  ∧ (last_error a' = last_error a ∨ last_error a' = None).

(** [c * n] *)
Fixpoint repeat_char (c : ascii) (n : nat) : string :=
  match n with
  | O => EmptyString
  | S n' => String c (repeat_char c n')
  end.

(** 500 with a body of 400 characters. *)
Definition reply_long_error : reply :=
  {| r_ok := false; r_status := 500; r_body := repeat_char "x"%char 400;
     r_parsed := None |}.

(** The failure rows of an agent as the claim on the counters counts
    them: the rows that are no success and whose reason is not
    "already_streaming". *)
Definition failed_not_already_streaming (r : attempt) : bool :=
  negb (applied_arm_success r)
  && negb (String.eqb (at_reason r) "already_streaming").

(** The store of the billing scenarios: agent 1 active, agent 2
    paused, three unbilled usage rows. *)
Definition sweep_store : store :=
  let pending n :=
    {| uw_windows := n; uw_billed := false; uw_billed_at_ms := None;
       uw_last_error := None |} in
  {| agents :=
       <[1 := new_agent "claw1aaa" "feed" 500 0]>
         (<[2 := with_status "paused" 5 (new_agent "claw1bbb" "beef" 500 0)]> ∅);
     agents_seq := 2;
     attempts := [];
     usage_windows :=
       <[(1, 41) := pending 3]>
         (<[(2, 41) := pending 1]> (<[(1, 42) := pending 2]> ∅));
     billing_attempts := [] |}.

(** * Properties *)

Local Open Scope list_scope.

(** ** Strings *)

Lemma length_slice_to n s : (String.length (PyStr.slice_to n s) <= n)%nat.
Proof.
  revert s; induction n as [|n IH]; intros [|c s]; simpl; try lia.
  specialize (IH s); lia.
Qed.

Lemma length_slice_to_min n s :
  String.length (PyStr.slice_to n s) = Nat.min n (String.length s).
Proof.
  revert s; induction n as [|n IH]; intros [|c s]; simpl; try reflexivity.
  now rewrite IH.
Qed.

Lemma length_append (a b : string) :
  String.length (a ++ b)%string = (String.length a + String.length b)%nat.
Proof. induction a as [|c a IH]; simpl; [reflexivity|now rewrite IH]. Qed.


(** ** Extraction of [end_stream_ms] *)

Lemma dict_nonempty (d : pydict) k v : d !! k = Some v -> size d ≠ 0%nat.
Proof.
  intros Hk Hsz. apply map_size_empty_iff in Hsz. subst d.
  by rewrite lookup_empty in Hk.
Qed.

Lemma extract_unfold (d : pydict) :
  size d ≠ 0%nat ->
  _extract_end_stream_ms (Some d)
  = as_int (py_or (dict_get d "end_stream") (dict_get d "can_stream_again_at")).
Proof. intros Hd. unfold _extract_end_stream_ms. by destruct (decide _). Qed.

Lemma extract_empty (d : pydict) :
  size d = 0%nat -> _extract_end_stream_ms (Some d) = None.
Proof. intros Hd. unfold _extract_end_stream_ms. by destruct (decide _). Qed.

(** A truthy [end_stream] that is not an integer hides an integer
    [can_stream_again_at]. *)
Lemma extract_shadowed (d : pydict) v :
  d !! "end_stream" = Some v -> truthy v = true -> as_int v = None ->
  _extract_end_stream_ms (Some d) = None.
Proof.
  intros Hv Ht Hi. rewrite extract_unfold by eauto using dict_nonempty.
  unfold py_or, dict_get. rewrite Hv. simpl. by rewrite Ht.
Qed.

(** C6, as stated, fails: with [end_stream = 0] next to
    [can_stream_again_at = 5] the code returns 5, not the first integer
    field 0; and a string [end_stream] hides the integer
    [can_stream_again_at]. *)
Lemma extract_end_stream_ms_not_first_integer :
  let zero_then_five : pydict :=
    <["end_stream" := JInt 0]> (<["can_stream_again_at" := JInt 5]> ∅) in
  let text_then_five : pydict :=
    <["end_stream" := JStr "soon"]> (<["can_stream_again_at" := JInt 5]> ∅) in
  first_integer_field zero_then_five = Some 0
  ∧ _extract_end_stream_ms (Some zero_then_five) = Some 5
  ∧ first_integer_field text_then_five = Some 5
  ∧ _extract_end_stream_ms (Some text_then_five) = None.
Proof. by vm_compute. Qed.

(** C6, amended: a non-zero integer [end_stream] is extracted; when
    [end_stream] is absent, null or 0, an integer [can_stream_again_at] is
    extracted; when neither field holds an integer (a JSON boolean counts
    as one, as for [isinstance(v, int)]) the result is null. *)
Theorem extract_end_stream_ms_fields (d : pydict) (n m : Z) :
  (d !! "end_stream" = Some (JInt n) -> n ≠ 0 ->
   _extract_end_stream_ms (Some d) = Some n)
  ∧ (d !! "end_stream" = None ∨ d !! "end_stream" = Some JNull
       ∨ d !! "end_stream" = Some (JInt 0) ->
     d !! "can_stream_again_at" = Some (JInt m) ->
     _extract_end_stream_ms (Some d) = Some m)
  ∧ (as_int (dict_get d "end_stream") = None ->
     as_int (dict_get d "can_stream_again_at") = None ->
     _extract_end_stream_ms (Some d) = None).
Proof.
  split; [|split].
  - intros He Hn. rewrite extract_unfold by eauto using dict_nonempty.
    unfold py_or, dict_get. rewrite He. simpl.
    destruct (n =? 0) eqn:E; [lia|done].
  - intros He Hc. rewrite extract_unfold by eauto using dict_nonempty.
    unfold py_or, dict_get. rewrite Hc.
    destruct He as [-> | [-> | ->]]; done.
  - intros He Hc. destruct (decide (size d = 0%nat)) as [Hz|Hz].
    + by apply extract_empty.
    + rewrite extract_unfold by done. unfold py_or.
      by destruct (truthy _).
Qed.

Lemma extract_end_stream_ms_fields_witness :
  _extract_end_stream_ms (Some (<["end_stream" := JInt 7]> ∅)) = Some 7
  ∧ _extract_end_stream_ms
      (Some (<["end_stream" := JInt 0]>
               (<["can_stream_again_at" := JInt 5]> ∅))) = Some 5
  ∧ _extract_end_stream_ms (Some (<["end_stream" := JStr EmptyString]> ∅)) = None.
Proof.
  split; [|split].
  - apply (proj1 (extract_end_stream_ms_fields _ 7 0)); [reflexivity|lia].
  - apply (proj1 (proj2 (extract_end_stream_ms_fields _ 0 5)));
      [right; right; reflexivity|reflexivity].
  - apply (proj2 (proj2 (extract_end_stream_ms_fields _ 0 0))); reflexivity.
Defined.

(** ** Rules for database code *)

#[local] Arguments PyStr.slice_to : simpl never.
#[local] Arguments PyStr.of_int : simpl never.
#[local] Arguments upsert_agent : simpl never.
#[local] Arguments update_agents_by_address : simpl never.
#[local] Arguments update_agent_by_id : simpl never.
#[local] Arguments update_usage_window : simpl never.
#[local] Arguments delete_agent_rows : simpl never.
#[local] Arguments record_billing_attempt : simpl never.
#[local] Arguments set_attempts : simpl never.
#[local] Arguments set_usage_windows : simpl never.

Section Rules.
Context {A B : Type}.
Implicit Types (P : conn -> Prop) (E : conn -> Prop).

Lemma triple_ret P (Q : A -> conn -> Prop) E (a : A) :
  (forall c, P c -> Q a c) -> triple P (ret a) Q E.
Proof. intros H c Hc. by apply H. Qed.

Lemma triple_raise P (Q : A -> conn -> Prop) E msg :
  (forall c, P c -> E c) -> triple P (raise msg) Q E.
Proof. intros H c Hc. by apply H. Qed.

Lemma triple_bind P (R : A -> conn -> Prop) (Q : B -> conn -> Prop) E
    (m : Db A) (k : A -> Db B) :
  triple P m R E -> (forall a, triple (R a) (k a) Q E) ->
  triple P (bind m k) Q E.
Proof.
  intros Hm Hk c Hc. unfold bind. specialize (Hm c Hc).
  destruct (m c) as [c' [a|msg]]; [|done]. by apply Hk.
Qed.

Lemma triple_query P (Q : A -> conn -> Prop) E (q : store -> A) :
  (forall c, P c -> Q (q (working c)) c) -> triple P (query q) Q E.
Proof. intros H c Hc. by apply H. Qed.

Lemma triple_conseq P P' (Q Q' : A -> conn -> Prop) E E' (m : Db A) :
  triple P' m Q' E' ->
  (forall c, P c -> P' c) -> (forall a c, Q' a c -> Q a c) ->
  (forall c, E' c -> E c) ->
  triple P m Q E.
Proof.
  intros Hm HP HQ HE c Hc. specialize (Hm c (HP c Hc)).
  destruct (m c) as [c' [a|msg]]; auto.
Qed.

End Rules.

Lemma triple_for_each {A B} (I : conn -> Prop) E (body : A -> B -> Db B) l acc :
  (forall x acc', x ∈ l -> triple I (body x acc') (fun _ => I) E) ->
  triple I (for_each body l acc) (fun _ => I) E.
Proof.
  revert acc. induction l as [|x l IH]; intros acc Hbody; simpl.
  - by apply triple_ret.
  - eapply triple_bind.
    + apply Hbody. by left.
    + intros acc'. apply IH. intros y acc'' Hy. apply Hbody. by right.
Qed.

Lemma triple_run {A} P (Q : conn -> Prop) E (m : Db A) c :
  triple P m (fun _ => Q) E -> (forall c', E c' -> Q (rollback c')) ->
  P c -> Q (run m c).
Proof.
  intros Hm HE Hc. unfold run. specialize (Hm c Hc).
  destruct (m c) as [c' [a|msg]]; auto.
Qed.


Lemma triple_execute P (Q : unit -> conn -> Prop) E f :
  (forall c, P c -> Q tt {| durable := durable c; working := f (working c) |}) ->
  triple P (execute f) Q E.
Proof. intros H c Hc. by apply H. Qed.

Lemma triple_commit P (Q : unit -> conn -> Prop) E :
  (forall c, P c -> Q tt {| durable := working c; working := working c |}) ->
  triple P commit Q E.
Proof. intros H c Hc. by apply H. Qed.

(** A statement that keeps a store property keeps it on both sides. *)
Lemma triple_execute_both (I : store -> Prop) E f :
  (forall s, I s -> I (f s)) ->
  triple (both I) (execute f) (fun _ => both I) E.
Proof. intros H. apply triple_execute. intros c [Hd Hw]. split; simpl; auto. Qed.

Lemma triple_commit_both (I : store -> Prop) E :
  triple (both I) commit (fun _ => both I) E.
Proof. apply triple_commit. intros c [Hd Hw]. by split. Qed.

Lemma both_rollback (I : store -> Prop) c : both I c -> both I (rollback c).
Proof. intros [Hd _]. by split. Qed.

(** ** The agents table *)


Lemma select_agent_id_None addr s aid a :
  select_agent_id addr s = None -> agents s !! aid = Some a ->
  address a ≠ addr.
Proof.
  unfold select_agent_id. intros H Ha Haddr.
  destruct (head _) as [[i b]|] eqn:Hh; simplify_eq/=.
  apply head_None in Hh.
  eapply (filter_nil_not_elem_of _ _ (aid, a)) in Hh; [|done].
  apply Hh. by apply elem_of_map_to_list.
Qed.

Lemma max_agent_id_bound s aid :
  is_Some (agents s !! aid) -> aid ≤ max_agent_id s.
Proof.
  intros [a Ha]. unfold max_agent_id.
  apply elem_of_map_to_list in Ha.
  apply (list_elem_of_fmap_2 fst) in Ha. simpl in Ha.
  induction Ha as [x l|x y l Hin IH]; simpl; lia.
Qed.

Lemma fresh_agent_id s :
  agents s !! (Z.max (agents_seq s) (max_agent_id s) + 1) = None.
Proof.
  destruct (agents s !! _) eqn:E; [|done].
  assert (is_Some (agents s !! (Z.max (agents_seq s) (max_agent_id s) + 1)))
    as H%max_agent_id_bound by eauto.
  lia.
Qed.

(** ** The back-off ladder *)

Lemma schedule_retry_ladder ts k :
  0 ≤ k -> _schedule_retry ts k = Some (ts + backoff_delay k * 1000, k + 1).
Proof.
  intros Hk. unfold _schedule_retry, backoff_delay.
  change (Z.of_nat (length [30; 60; 120])) with 3.
  destruct (k <? 3) eqn:E.
  - assert (k = 0 ∨ k = 1 ∨ k = 2) as [-> | [-> | ->]] by lia; reflexivity.
  - destruct (k =? 0) eqn:E0; [lia|]. destruct (k =? 1) eqn:E1; [lia|].
    destruct (k =? 2) eqn:E2; [lia|]. reflexivity.
Qed.

(** ** Enrollment *)




Lemma update_agents_by_address_lookup f addr s aid :
  agents (update_agents_by_address f addr s) !! aid
  = (fun a => if decide (address a = addr) then f a else a) <$> agents s !! aid.
Proof. unfold update_agents_by_address. simpl. by rewrite lookup_fmap. Qed.







(** The checks at the head of [_enroll_via_api]: a malformed address,
    a fee outside 0..10000 or an empty signature raises and leaves the
    connection as it was. *)
Lemma enroll_via_api_validates w cfg addr sig fee c :
  _validate_agent_address addr = false ∨ fee_bps_in_range fee = false
  ∨ PyStr.truthy sig = false ->
  exists msg, _enroll_via_api w cfg addr sig fee c = (c, Raise msg).
Proof.
  intros H. unfold _enroll_via_api.
  destruct (_validate_agent_address addr); simpl; [|by eexists].
  destruct (fee_bps_in_range fee); simpl; [|by eexists].
  destruct (PyStr.truthy sig); simpl; [|by eexists].
  destruct H as [H|[H|H]]; discriminate.
Qed.

(** The one check of the [enroll] command: the fee. *)
Lemma cli_enroll_checks_fee w addr sig fee c :
  fee_bps_in_range fee = false ->
  exists msg, cli_enroll w addr sig fee c = (c, Raise msg).
Proof. intros H. unfold cli_enroll. rewrite H. simpl. by eexists. Qed.

(** C9 at the failing input: the [enroll] command of the CLI takes an
    address that does not match [claw1[0-9a-z]+] together with an empty
    signature, and commits the row; the API path rejects both
    ([enroll_via_api_validates]). *)
Theorem cli_enroll_skips_validation :
  let w := sample_world 1000 reply_unreachable (inr "down") (process_exit 0 "-") in
  _validate_agent_address "not an address" = false
  ∧ PyStr.truthy EmptyString = false
  ∧ exists c',
      cli_enroll w "not an address" EmptyString 500 (connect_db empty_store)
      = (c', Ok tt)
      ∧ address <$> agents (durable c') !! 1 = Some "not an address"
      ∧ stream_signature <$> agents (durable c') !! 1 = Some EmptyString.
Proof.
  intros w. do 2 (split; [by vm_compute|]).
  eexists. split; [by vm_compute|]. split; by vm_compute.
Qed.

(** ** The stream pass as a store transformer *)

Lemma process_agent_returns w cfg ce ts row stats c f :
  agent_update w cfg ts row = Some f ->
  exists stats',
    process_agent w cfg ce ts row stats c
    = ({| durable := durable c;
          working := iteration w cfg ce ts (working c) row |}, Ok stats').
Proof.
  intros Hf. unfold iteration. rewrite Hf.
  unfold agent_update, usage_update, classify, logged_attempt, reply_for in *.
  unfold process_agent, on_arm_success, on_already_streaming, on_failure,
    _record_attempt, _increment_usage_window, increment_usage, bind, execute,
    ret.
  destruct (_extract_end_stream_ms _) as [e|].
  - destruct (r_ok _ && negb (e =? 0)).
    + simplify_eq. destruct ce; eexists; reflexivity.
    + destruct (String.eqb _ _ && negb (e =? 0)).
      * simplify_eq. eexists; reflexivity.
      * destruct (_schedule_retry _ _) as [[]|]; simplify_eq.
        eexists; reflexivity.
  - destruct (_schedule_retry _ _) as [[]|]; simplify_eq.
    eexists; reflexivity.
Qed.



Lemma stream_loop_returns w cfg ce ts rows stats c :
  (forall row, row ∈ rows -> is_Some (agent_update w cfg ts row)) ->
  exists stats',
    for_each (process_agent w cfg ce ts) rows stats c
    = ({| durable := durable c;
          working := foldl (iteration w cfg ce ts) (working c) rows |},
       Ok stats').
Proof.
  revert stats c. induction rows as [|row rows IH]; intros stats c Hrows.
  - exists stats. by destruct c.
  - destruct (Hrows row) as [f Hf]; [by left|].
    destruct (process_agent_returns w cfg ce ts row stats c f Hf)
      as [stats1 H1].
    simpl. unfold bind. rewrite H1.
    destruct (IH stats1 {| durable := durable c;
                           working := iteration w cfg ce ts (working c) row |})
      as [stats2 H2]; [intros; apply Hrows; by right|].
    exists stats2. by rewrite H2.
Qed.

(** The store after a stream pass that returns. *)
Lemma process_due_agents_returns w cfg ce c :
  let ts := w_now_ms w AtTickStart in
  let rows := select_due_agents ts (working c) in
  (forall row, row ∈ rows -> is_Some (agent_update w cfg ts row)) ->
  exists stats,
    process_due_agents w cfg ce c
    = (connect_db (foldl (iteration w cfg ce ts) (working c) rows), Ok stats).
Proof.
  intros ts rows Hrows. unfold process_due_agents, bind, query.
  destruct (stream_loop_returns w cfg ce ts rows no_stream_stats c Hrows)
    as [stats Hs].
  fold ts. fold rows. rewrite Hs. by exists stats.
Qed.


(** ** The due agents *)

Lemma elem_of_select_due_agents ts s row :
  row ∈ select_due_agents ts s
  <-> agents s !! row.1 = Some row.2 ∧ is_due ts row.2 = true.
Proof.
  unfold select_due_agents. rewrite merge_sort_Permutation.
  rewrite list_elem_of_filter, elem_of_map_to_list'. tauto.
Qed.

Lemma NoDup_select_due_agents ts s : NoDup (select_due_agents ts s).*1.
Proof.
  unfold select_due_agents. rewrite merge_sort_Permutation.
  eapply sublist_NoDup; [apply (NoDup_fst_map_to_list (agents s))|].
  apply fmap_sublist, sublist_filter.
Qed.

(** ** One iteration on the tables *)

Lemma agents_iteration w cfg ce ts s row :
  agents (iteration w cfg ce ts s row)
  = match agent_update w cfg ts row with
    | Some f => alter f row.1 (agents s)
    | None => agents s
    end.
Proof.
  unfold iteration, usage_update.
  destruct (agent_update w cfg ts row) as [f|]; [|done].
  by destruct (classify _), ce.
Qed.

Lemma attempts_iteration w cfg ce ts s row :
  attempts (iteration w cfg ce ts s row)
  = match agent_update w cfg ts row with
    | Some _ => (attempts s ++ [logged_attempt w cfg row])%list
    | None => attempts s
    end.
Proof.
  unfold iteration, usage_update.
  destruct (agent_update w cfg ts row) as [f|]; [|done].
  by destruct (classify _), ce.
Qed.

Lemma billing_attempts_iteration w cfg ce ts s row :
  billing_attempts (iteration w cfg ce ts s row) = billing_attempts s.
Proof.
  unfold iteration, usage_update.
  destruct (agent_update w cfg ts row) as [f|]; [|done].
  by destruct (classify _), ce.
Qed.


Lemma usage_iteration w cfg ce ts s row :
  usage_windows (iteration w cfg ce ts s row)
  = match agent_update w cfg ts row, classify (reply_for w cfg row.2), ce with
    | Some _, ArmSuccess _, Some epoch =>
        partial_alter (fun o => Some (from_option bump_windows first_window o))
          (row.1, epoch) (usage_windows s)
    | _, _, _ => usage_windows s
    end.
Proof.
  unfold iteration, usage_update.
  destruct (agent_update w cfg ts row) as [f|]; [|done].
  by destruct (classify _), ce.
Qed.

(** An iteration leaves the rows of the other agents alone. *)
Lemma agents_iteration_ne w cfg ce ts s row aid :
  row.1 ≠ aid ->
  agents (iteration w cfg ce ts s row) !! aid = agents s !! aid.
Proof.
  intros Hne. rewrite agents_iteration.
  destruct (agent_update _ _ _ _); [|done]. by rewrite lookup_alter_ne.
Qed.



(** The pass touches the usage rows of the snapshot epoch only. *)
Lemma usage_iteration_other w cfg ce ts s row k :
  (forall epoch, ce = Some epoch -> k.2 ≠ epoch) ->
  usage_windows (iteration w cfg ce ts s row) !! k = usage_windows s !! k.
Proof.
  intros Hk. rewrite usage_iteration.
  destruct (agent_update _ _ _ _); [|done].
  destruct (classify _); try done. destruct ce as [epoch|]; [|done].
  rewrite lookup_partial_alter_ne; [done|].
  intros <-. by apply (Hk epoch).
Qed.

Lemma usage_stream_loop_other w cfg ce ts rows s k :
  (forall epoch, ce = Some epoch -> k.2 ≠ epoch) ->
  usage_windows (foldl (iteration w cfg ce ts) s rows) !! k
  = usage_windows s !! k.
Proof.
  intros Hk. revert s. induction rows as [|row rows IH]; intros s; [done|].
  simpl. rewrite IH. by apply usage_iteration_other.
Qed.

(** ** Counting the attempt log *)


Lemma count_attempts_snoc p aid l r :
  count_attempts p aid (l ++ [r])
  = count_attempts p aid l
    + (if decide (at_agent_id r = aid ∧ p r = true) then 1 else 0).
Proof.
  unfold count_attempts. rewrite filter_app, length_app.
  rewrite filter_cons, filter_nil.
  destruct (decide _); simpl; lia.
Qed.

Lemma count_attempts_snoc_other p aid l r :
  at_agent_id r ≠ aid -> count_attempts p aid (l ++ [r]) = count_attempts p aid l.
Proof.
  intros Hne. rewrite count_attempts_snoc.
  destruct (decide _) as [[? _]|]; [done|lia].
Qed.

Lemma count_attempts_snoc_own p l r :
  count_attempts p (at_agent_id r) (l ++ [r])
  = count_attempts p (at_agent_id r) l + (if p r then 1 else 0).
Proof.
  rewrite count_attempts_snoc.
  destruct (p r); destruct (decide _) as [[]|Hn]; try done.
  exfalso. apply Hn. done.
Qed.

Lemma count_attempts_none p aid l :
  (forall r, r ∈ l -> at_agent_id r ≠ aid) -> count_attempts p aid l = 0.
Proof.
  intros Hl. unfold count_attempts.
  induction l as [|r l IH]; [done|].
  rewrite filter_cons. destruct (decide _) as [[Heq _]|_].
  - exfalso. eapply Hl; [by left|done].
  - apply IH. intros r' Hr'. apply Hl. by right.
Qed.

(** Dropping the rows of another agent does not change a count. *)
Lemma count_attempts_drop_other p aid aid' l :
  aid ≠ aid' ->
  count_attempts p aid (filter (fun r => at_agent_id r ≠ aid') l)
  = count_attempts p aid l.
Proof.
  intros Hne. unfold count_attempts. f_equal. f_equal.
  induction l as [|r l IH]; [done|].
  rewrite !filter_cons.
  destruct (decide (at_agent_id r ≠ aid')) as [Hr|Hr].
  - rewrite filter_cons. destruct (decide _); by rewrite IH.
  - destruct (decide _) as [[Heq _]|_]; [|done].
    exfalso. apply Hr. congruence.
Qed.

Lemma count_attempts_snoc_logged p w cfg row l :
  count_attempts p row.1 (l ++ [logged_attempt w cfg row])
  = count_attempts p row.1 l
    + (if p (logged_attempt w cfg row) then 1 else 0).
Proof. apply (count_attempts_snoc_own p l (logged_attempt w cfg row)). Qed.

(** The branch taken on a reply can be read off the logged row. *)
Lemma classify_logged w cfg row :
  let r := logged_attempt w cfg row in
  match classify (reply_for w cfg row.2) with
  | ArmSuccess _ => applied_arm_success r = true ∧ applied_backoff r = false
  | ReSync _ => applied_arm_success r = false ∧ applied_backoff r = false
  | Backoff => applied_arm_success r = false ∧ applied_backoff r = true
  end.
Proof.
  unfold classify, applied_backoff, applied_resync, applied_arm_success,
    logged_attempt. simpl.
  destruct (_extract_end_stream_ms _) as [e|]; simpl.
  - destruct (r_ok _), (negb (e =? 0)), (String.eqb _ _); simpl; done.
  - destruct (r_ok _), (String.eqb _ _); simpl; done.
Qed.

(** The counters of the updated row move with the branch. *)
Lemma agent_update_counters w cfg ts row f a :
  agent_update w cfg ts row = Some f ->
  let r := logged_attempt w cfg row in
  success_count (f a)
  = success_count a + (if applied_arm_success r then 1 else 0)
  ∧ failure_count (f a)
    = failure_count a + (if applied_backoff r then 1 else 0).
Proof.
  intros Hf r. pose proof (classify_logged w cfg row) as Hc.
  unfold agent_update in Hf. fold r in Hc.
  destruct (classify _).
  - destruct Hc as [-> ->]. simplify_eq. simpl. lia.
  - destruct Hc as [-> ->]. simplify_eq. simpl. lia.
  - destruct Hc as [-> ->].
    destruct (_schedule_retry _ _) as [[]|]; simplify_eq. simpl. lia.
Qed.

Lemma agent_update_is_Some w cfg ts row :
  0 ≤ retry_step row.2 -> is_Some (agent_update w cfg ts row).
Proof.
  intros Hk. unfold agent_update. destruct (classify _); [by eexists..|].
  rewrite schedule_retry_ladder by done. by eexists.
Qed.

Lemma agent_update_retry_step w cfg ts row f a :
  agent_update w cfg ts row = Some f -> 0 ≤ retry_step row.2 ->
  0 ≤ retry_step (f a).
Proof.
  intros Hf Hk. unfold agent_update in Hf. destruct (classify _).
  - by simplify_eq.
  - by simplify_eq.
  - rewrite schedule_retry_ladder in Hf by done. simplify_eq. simpl. lia.
Qed.

Lemma agent_update_last_error w cfg ts row f a e :
  agent_update w cfg ts row = Some f -> last_error (f a) = Some e ->
  last_error a = Some e ∨ exists status_code body, e = failure_text status_code body.
Proof.
  intros Hf He. unfold agent_update in Hf. destruct (classify _).
  - by simplify_eq.
  - simplify_eq. by left.
  - destruct (_schedule_retry _ _) as [[]|]; simplify_eq. simpl in He.
    simplify_eq. right. by eexists _, _.
Qed.

(** ** The invariant of the store *)

Lemma store_ok_empty : store_ok empty_store.
Proof.
  split; [|split; [|split]].
  - intros aid a H. simpl in H. by rewrite lookup_empty in H.
  - intros r Hr. by apply elem_of_nil in Hr.
  - intros aid a H. simpl in H. by rewrite lookup_empty in H.
  - split; [|split; [|split]].
    + intros aid a e H. simpl in H. by rewrite lookup_empty in H.
    + intros k u e H. simpl in H. by rewrite lookup_empty in H.
    + intros r Hr. by apply elem_of_nil in Hr.
    + intros r Hr. by apply elem_of_nil in Hr.
Qed.

Lemma iteration_counts_ok w cfg ce ts s row :
  counts_ok s -> agents s !! row.1 = Some row.2 ->
  counts_ok (iteration w cfg ce ts s row).
Proof.
  intros Hok Hrow aid a Ha.
  rewrite agents_iteration in Ha. rewrite attempts_iteration.
  destruct (agent_update w cfg ts row) as [f|] eqn:Hf; [|by apply Hok].
  destruct (decide (row.1 = aid)) as [<-|Hne].
  - rewrite lookup_alter_eq, Hrow in Ha. simplify_eq/=.
    destruct (Hok _ _ Hrow) as [Hs Hfl].
    destruct (agent_update_counters w cfg ts row f row.2 Hf) as [-> ->].
    rewrite !count_attempts_snoc_logged. lia.
  - rewrite lookup_alter_ne in Ha by done.
    rewrite !count_attempts_snoc_other by done. by apply Hok.
Qed.

Lemma iteration_attempts_refer w cfg ce ts s row :
  attempts_refer s -> agents s !! row.1 = Some row.2 ->
  attempts_refer (iteration w cfg ce ts s row).
Proof.
  intros Hok Hrow r Hr.
  rewrite agents_iteration. rewrite attempts_iteration in Hr.
  destruct (agent_update w cfg ts row) as [f|] eqn:Hf; [|by apply Hok].
  assert (is_Some (agents s !! at_agent_id r)) as [a Ha].
  { apply elem_of_app in Hr as [Hr|Hr]; [by apply Hok|].
    apply list_elem_of_singleton in Hr as ->. by exists row.2. }
  rewrite lookup_alter. destruct (decide _); [rewrite Hrow|rewrite Ha];
    by eexists.
Qed.

Lemma iteration_retry_steps_ok w cfg ce ts s row :
  retry_steps_ok s -> agents s !! row.1 = Some row.2 ->
  retry_steps_ok (iteration w cfg ce ts s row).
Proof.
  intros Hok Hrow aid a Ha. rewrite agents_iteration in Ha.
  destruct (agent_update w cfg ts row) as [f|] eqn:Hf; [|by eapply Hok].
  destruct (decide (row.1 = aid)) as [<-|Hne].
  - rewrite lookup_alter_eq, Hrow in Ha. simplify_eq/=.
    eapply agent_update_retry_step; [done|]. by eapply Hok.
  - rewrite lookup_alter_ne in Ha by done. by eapply Hok.
Qed.

Lemma iteration_texts_ok w cfg ce ts s row :
  texts_ok s -> texts_ok (iteration w cfg ce ts s row).
Proof.
  intros (Hag & Hus & Hat & Hba). split; [|split; [|split]].
  - intros aid a e Ha He. rewrite agents_iteration in Ha.
    destruct (agent_update w cfg ts row) as [f|] eqn:Hf; [|by eapply Hag].
    rewrite lookup_alter in Ha.
    destruct (decide (row.1 = aid)) as [<-|]; [|by eapply Hag].
    destruct (agents s !! row.1) as [a0|] eqn:Ha0; simplify_eq/=.
    destruct (agent_update_last_error _ _ _ _ _ a0 e Hf He) as [H0|H0];
      [by eapply Hag|done].
  - intros k u e Hu He. rewrite usage_iteration in Hu.
    destruct (agent_update w cfg ts row) as [f|]; [|by eapply Hus].
    destruct (classify _); try by eapply Hus.
    destruct ce as [epoch|]; [|by eapply Hus].
    rewrite lookup_partial_alter in Hu. destruct (decide _); [|by eapply Hus].
    simplify_eq/=. destruct (usage_windows s !! _) as [u0|] eqn:Hu0; simpl in He.
    + by eapply Hus.
    + done.
  - intros r Hr. rewrite attempts_iteration in Hr.
    destruct (agent_update w cfg ts row) as [f|]; [|by apply Hat].
    apply elem_of_app in Hr as [Hr|Hr]; [by apply Hat|].
    apply list_elem_of_singleton in Hr as ->. simpl. apply length_slice_to.
  - intros r Hr. rewrite billing_attempts_iteration in Hr. by apply Hba.
Qed.

Lemma iteration_store_ok w cfg ce ts s row :
  store_ok s -> agents s !! row.1 = Some row.2 ->
  store_ok (iteration w cfg ce ts s row).
Proof.
  intros (H1 & H2 & H3 & H4) Hrow. split; [|split; [|split]].
  - by apply iteration_counts_ok.
  - by apply iteration_attempts_refer.
  - by apply iteration_retry_steps_ok.
  - by apply iteration_texts_ok.
Qed.

Lemma stream_loop_store_ok w cfg ce ts rows s :
  NoDup rows.*1 -> (forall row, row ∈ rows -> agents s !! row.1 = Some row.2) ->
  store_ok s -> store_ok (foldl (iteration w cfg ce ts) s rows).
Proof.
  revert s. induction rows as [|row rows IH]; intros s Hnd Hrows Hok; [done|].
  apply NoDup_cons in Hnd as [Hnot Hnd]. simpl. apply IH; [done| |].
  - intros row' Hin. rewrite agents_iteration_ne.
    + apply Hrows. by right.
    + intros Heq. apply Hnot. rewrite Heq.
      by apply (list_elem_of_fmap_2 fst) in Hin.
  - apply iteration_store_ok; [done|]. apply Hrows. by left.
Qed.

Lemma due_rows_returning w cfg ts s row :
  retry_steps_ok s -> row ∈ select_due_agents ts s ->
  is_Some (agent_update w cfg ts row).
Proof.
  intros Hok [Hrow _]%elem_of_select_due_agents.
  apply agent_update_is_Some. by eapply Hok.
Qed.

(** On a store that satisfies the invariant the stream pass returns,
    keeps the invariant and leaves nothing pending. *)
Lemma process_due_agents_store_ok w cfg ce c :
  both store_ok c ->
  exists s' stats,
    process_due_agents w cfg ce c = (connect_db s', Ok stats)
    ∧ s' = foldl (iteration w cfg ce (w_now_ms w AtTickStart)) (working c)
             (select_due_agents (w_now_ms w AtTickStart) (working c))
    ∧ store_ok s'.
Proof.
  intros [_ Hw].
  destruct (process_due_agents_returns w cfg ce c) as [stats Hs].
  { intros row. apply due_rows_returning. apply Hw. }
  eexists _, stats. split; [exact Hs|]. split; [done|].
  apply stream_loop_store_ok; [apply NoDup_select_due_agents| |done].
  intros row Hin. by apply elem_of_select_due_agents in Hin as [? _].
Qed.

(** ** A due agent through the stream pass *)







(** ** Back-off *)




(** ** Classification of a reply *)





Lemma classify_arm_success_iff r :
  (exists e, classify r = ArmSuccess e)
  <-> r_ok r = true ∧ opt_truthy (_extract_end_stream_ms (r_parsed r)) = true.
Proof.
  unfold classify, opt_truthy.
  destruct (_extract_end_stream_ms _) as [e|].
  - destruct (r_ok r), (negb (e =? 0)); simpl;
      try destruct (String.eqb _ _);
      (split; [intros [x Hx]; try discriminate; done
              |intros [H1 H2]; try discriminate; eauto]).
  - split; [intros [x Hx]; discriminate|intros [H1 H2]; discriminate].
Qed.





(** ** Commits of the stream pass *)





(** ** The billing pass as a store transformer *)


Lemma run_bill_epoch_unconfigured w cfg addr epoch windows :
  billing_configured cfg = false ->
  exists msg, _run_bill_epoch w cfg addr epoch windows = Raise msg.
Proof.
  unfold billing_configured, _run_bill_epoch.
  destruct (escrow_contract cfg), (operator_pem cfg); try by eexists.
  intros ->. by eexists.
Qed.




(** Without a known epoch, or with billing disabled, the pass does
    nothing. *)
Lemma bill_closed_epochs_skipped w cfg ce c :
  ce = None ∨ billing_enabled cfg = false ->
  bill_closed_epochs_issuing w cfg ce c = (c, Ok (no_billing_stats, [])).
Proof.
  intros [-> | Hen]; [done|]. unfold bill_closed_epochs_issuing.
  destruct ce; [|done]. by rewrite Hen.
Qed.

(** With billing enabled but the contract or the key missing, the pass
    raises at its first candidate: no call is issued and nothing is
    written. *)
Lemma bill_closed_epochs_unconfigured w cfg ce c :
  billing_enabled cfg = true -> billing_configured cfg = false ->
  select_billing_candidates ce (working c) ≠ [] ->
  exists msg, bill_closed_epochs_issuing w cfg (Some ce) c = (c, Raise msg).
Proof.
  intros Hen Hcfg Hne. unfold bill_closed_epochs_issuing.
  rewrite Hen. simpl. unfold bind, query.
  destruct (select_billing_candidates ce (working c)) as [|x rows]; [done|].
  simpl. unfold bind, bill_candidate.
  destruct (run_bill_epoch_unconfigured w cfg (cd_address x) (cd_epoch x)
              (cd_windows x) Hcfg) as [msg ->].
  by exists msg.
Qed.

(** The epoch is known to a tick only when billing is enabled. *)
Lemma epoch_snapshot_known w cfg ce :
  (epoch_snapshot w cfg).1 = Some ce -> billing_enabled cfg = true.
Proof. unfold epoch_snapshot. by destruct (billing_enabled cfg). Qed.

(** ** The billing candidates *)

#[local] Instance candidate_before_total : Total candidate_before.
Proof. intros x y. unfold candidate_before. lia. Qed.

#[local] Instance candidate_before_trans : Transitive candidate_before.
Proof. intros x y z. unfold candidate_before. lia. Qed.

Lemma candidate_of_Some ce s kv x :
  candidate_of ce s kv = Some x
  <-> exists a,
        agents s !! kv.1.1 = Some a
        ∧ uw_billed kv.2 = false ∧ kv.1.2 < ce ∧ 0 < uw_windows kv.2
        ∧ billable_status (status a) = true
        ∧ x = {| cd_agent_id := kv.1.1; cd_epoch := kv.1.2;
                 cd_windows := uw_windows kv.2; cd_address := address a |}.
Proof.
  unfold candidate_of.
  destruct (agents s !! kv.1.1) as [a|];
    [|split; [done|by intros (a' & Ha & _)]].
  destruct (negb (uw_billed kv.2) && (kv.1.2 <? ce)
            && (0 <? uw_windows kv.2) && billable_status (status a)) eqn:E.
  - apply andb_true_iff in E as [E E4]. apply andb_true_iff in E as [E E3].
    apply andb_true_iff in E as [E1 E2]. apply negb_true_iff in E1.
    apply Z.ltb_lt in E2, E3. split.
    + intros H. simplify_eq. exists a. done.
    + intros (a' & Ha & _ & _ & _ & _ & ->). by simplify_eq.
  - split; [done|].
    intros (a' & Ha & Hb & Hlt & Hw & Hst & ->). simplify_eq.
    apply Z.ltb_lt in Hlt, Hw. rewrite Hb, Hlt, Hw, Hst in E. done.
Qed.

Lemma elem_of_select_billing_candidates ce s x :
  x ∈ select_billing_candidates ce s
  <-> exists u a,
        usage_windows s !! candidate_key x = Some u
        ∧ agents s !! cd_agent_id x = Some a
        ∧ uw_billed u = false ∧ cd_epoch x < ce ∧ 0 < uw_windows u
        ∧ billable_status (status a) = true
        ∧ cd_windows x = uw_windows u ∧ cd_address x = address a.
Proof.
  unfold select_billing_candidates. rewrite merge_sort_Permutation.
  rewrite list_elem_of_omap. split.
  - intros ([[aid epoch] u] & Hin & Hc).
    apply elem_of_map_to_list in Hin.
    apply candidate_of_Some in Hc as (a & Ha & ? & ? & ? & ? & ->).
    exists u, a. done.
  - intros (u & a & Hu & Ha & ? & ? & ? & ? & Hw & Haddr).
    exists (candidate_key x, u). split; [by apply elem_of_map_to_list|].
    apply candidate_of_Some. exists a. simpl.
    repeat split; try done. destruct x; simpl in *. by subst.
Qed.









(** ** Code that keeps a property of one usage row *)

Section KeepsRow.
Context (P : option usage_window -> Prop) (k : Z * Z).

Lemma keeps_ret {A} (I : conn -> Prop) (a : A) : keeps I (ret a).
Proof. by apply triple_ret. Qed.

Lemma keeps_raise {A} (I : conn -> Prop) msg : keeps I (@raise A msg).
Proof. by apply triple_raise. Qed.

Lemma keeps_bind {A B} (I : conn -> Prop) (m : Db A) (f : A -> Db B) :
  keeps I m -> (forall a, keeps I (f a)) -> keeps I (bind m f).
Proof. intros Hm Hf. eapply triple_bind; [exact Hm|exact Hf]. Qed.

Lemma keeps_query {A} (I : conn -> Prop) (q : store -> A) : keeps I (query q).
Proof. by apply triple_query. Qed.

Lemma keeps_for_each {A B} (I : conn -> Prop) (body : A -> B -> Db B) l acc :
  (forall x acc', x ∈ l -> keeps I (body x acc')) ->
  keeps I (for_each body l acc).
Proof. apply triple_for_each. Qed.

Lemma keeps_execute (J : store -> Prop) f :
  (forall s, J s -> J (f s)) -> keeps (both J) (execute f).
Proof. apply triple_execute_both. Qed.

Lemma keeps_commit (J : store -> Prop) : keeps (both J) commit.
Proof. apply triple_commit_both. Qed.

Lemma keeps_run {A} (J : store -> Prop) (m : Db A) c :
  keeps (both J) m -> both J c -> both J (run m c).
Proof.
  intros Hm Hc. eapply triple_run; [exact Hm| |exact Hc].
  apply both_rollback.
Qed.

(** Statements on the other tables. *)
Lemma row_prop_same_usage s s' :
  usage_windows s' = usage_windows s -> row_prop P k s -> row_prop P k s'.
Proof. unfold row_prop. by intros ->. Qed.

Lemma keeps_record_attempt w aid ok status_code reason e body :
  keeps (both (row_prop P k))
    (_record_attempt w aid ok status_code reason e body).
Proof. apply keeps_execute. intros s. by apply row_prop_same_usage. Qed.

Lemma keeps_update_agent f aid :
  keeps (both (row_prop P k)) (execute (update_agent_by_id f aid)).
Proof. apply keeps_execute. intros s. by apply row_prop_same_usage. Qed.

Lemma keeps_update_agents_by_address f addr :
  keeps (both (row_prop P k)) (execute (update_agents_by_address f addr)).
Proof. apply keeps_execute. intros s. by apply row_prop_same_usage. Qed.

Lemma keeps_enroll_agent w addr sig fee :
  keeps (both (row_prop P k)) (enroll_agent w addr sig fee).
Proof.
  unfold enroll_agent. apply keeps_bind; [|intros _; apply keeps_commit].
  apply keeps_execute. intros s. apply row_prop_same_usage.
  unfold upsert_agent. by destruct (select_agent_id _ _).
Qed.

Lemma keeps_cli_enroll w addr sig fee :
  keeps (both (row_prop P k)) (cli_enroll w addr sig fee).
Proof.
  unfold cli_enroll. destruct (negb _); [apply keeps_raise|].
  apply keeps_enroll_agent.
Qed.

Lemma keeps_probe_stream w cfg addr sig :
  keeps (both (row_prop P k)) (probe_stream w cfg addr sig).
Proof.
  unfold probe_stream. destruct (negb _ && _);
    [apply keeps_raise|apply keeps_ret].
Qed.

Lemma keeps_enroll_via_api w cfg addr sig fee :
  keeps (both (row_prop P k)) (_enroll_via_api w cfg addr sig fee).
Proof.
  unfold _enroll_via_api.
  destruct (negb (_validate_agent_address addr)); [apply keeps_raise|].
  destruct (negb (fee_bps_in_range fee)); [apply keeps_raise|].
  destruct (negb (PyStr.truthy sig)); [apply keeps_raise|].
  apply keeps_bind.
  { destruct (intake_probe_stream cfg);
      [apply keeps_probe_stream|apply keeps_ret]. }
  intros pr. apply keeps_bind; [apply keeps_enroll_agent|]. intros _.
  apply keeps_bind; [|intros _; apply keeps_ret].
  destruct (pr_end_stream_ms pr) as [e|]; [|apply keeps_ret].
  destruct (negb (e =? 0)); [|apply keeps_ret].
  apply keeps_bind; [apply keeps_update_agents_by_address|].
  intros _. apply keeps_commit.
Qed.

Lemma keeps_set_status w addr st :
  keeps (both (row_prop P k)) (set_status w addr st).
Proof.
  unfold set_status. apply keeps_bind; [apply keeps_query|]. intros n.
  apply keeps_bind; [apply keeps_update_agents_by_address|]. intros _.
  apply keeps_bind; [apply keeps_commit|]. intros _.
  destruct (n =? 0)%nat; [apply keeps_raise|apply keeps_ret].
Qed.

(** The stream pass, when the property survives a usage increment of
    the key at the snapshot epoch. *)
Lemma keeps_process_agent w cfg ce ts row stats :
  (forall e o, ce = Some e -> (row.1, e) = k -> P o ->
     P (Some (from_option bump_windows first_window o))) ->
  keeps (both (row_prop P k)) (process_agent w cfg ce ts row stats).
Proof.
  intros Hinc. unfold process_agent.
  apply keeps_bind; [apply keeps_record_attempt|]. intros _.
  assert (forall st, keeps (both (row_prop P k))
            (on_failure ts row.1 (retry_step row.2)
               (r_status (_post_stream w (stream_url cfg) (address row.2)
                            (stream_signature row.2)))
               (r_body (_post_stream w (stream_url cfg) (address row.2)
                          (stream_signature row.2))) st)) as Hfail.
  { intros st. unfold on_failure.
    destruct (_schedule_retry _ _) as [[]|]; [|apply keeps_raise].
    apply keeps_bind; [apply keeps_update_agent|].
    intros _. apply keeps_ret. }
  destruct (_extract_end_stream_ms _) as [e|]; [|apply Hfail].
  destruct (r_ok _ && negb (e =? 0)).
  - unfold on_arm_success.
    apply keeps_bind; [apply keeps_update_agent|]. intros _.
    apply keeps_bind; [|intros; apply keeps_ret].
    destruct ce as [epoch|]; [|apply keeps_ret].
    apply keeps_bind; [|intros; apply keeps_ret].
    unfold _increment_usage_window. apply keeps_execute.
    intros s Hs. unfold row_prop in *. unfold set_usage_windows. simpl.
    rewrite lookup_partial_alter. destruct (decide _) as [Heq|]; [|done].
    apply (Hinc epoch _ eq_refl Heq). by rewrite Heq.
  - destruct (String.eqb _ _ && negb (e =? 0)); [|apply Hfail].
    unfold on_already_streaming.
    apply keeps_bind; [apply keeps_update_agent|].
    intros _. apply keeps_ret.
Qed.

Lemma keeps_process_due_agents w cfg ce :
  (forall e o, ce = Some e -> k.2 = e -> P o ->
     P (Some (from_option bump_windows first_window o))) ->
  keeps (both (row_prop P k)) (process_due_agents w cfg ce).
Proof.
  intros Hinc. unfold process_due_agents.
  apply keeps_bind; [apply keeps_query|]. intros rows.
  apply keeps_bind.
  { apply keeps_for_each. intros row acc _. apply keeps_process_agent.
    intros e o He Hk. apply (Hinc e o He). by rewrite <- Hk. }
  intros stats. apply keeps_bind; [apply keeps_commit|].
  intros _. apply keeps_ret.
Qed.

(** The billing pass, when no candidate has the key. *)
Lemma keeps_bill_candidate w cfg row acc :
  candidate_key row ≠ k ->
  keeps (both (row_prop P k)) (bill_candidate w cfg row acc).
Proof.
  intros Hk. unfold bill_candidate.
  destruct (_run_bill_epoch _ _ _ _ _) as [proc|msg]; [|apply keeps_raise].
  apply keeps_bind.
  { apply keeps_execute. intros s. by apply row_prop_same_usage. }
  intros _.
  assert (forall f, keeps (both (row_prop P k))
            (execute (update_usage_window f (cd_agent_id row) (cd_epoch row))))
    as Hup.
  { intros f. apply keeps_execute. intros s Hs. unfold row_prop in *.
    unfold update_usage_window, set_usage_windows. simpl.
    by rewrite lookup_alter_ne. }
  destruct (returncode proc =? 0);
    (apply keeps_bind; [apply Hup|intros _; apply keeps_ret]).
Qed.

Lemma keeps_bill_closed_epochs w cfg ce :
  (forall e s x, ce = Some e -> row_prop P k s ->
     x ∈ select_billing_candidates e s -> candidate_key x ≠ k) ->
  keeps (both (row_prop P k)) (bill_closed_epochs w cfg ce).
Proof.
  intros Hcand. unfold bill_closed_epochs.
  apply keeps_bind; [|intros; apply keeps_ret].
  unfold bill_closed_epochs_issuing. destruct ce as [e|]; [|apply keeps_ret].
  destruct (negb (billing_enabled cfg)); [apply keeps_ret|].
  eapply triple_bind.
  - apply (triple_query _
             (fun rows c => both (row_prop P k) c
                            ∧ forall x, x ∈ rows -> candidate_key x ≠ k)).
    intros c Hc. split; [done|]. intros x Hx.
    eapply Hcand; [done| |exact Hx]. apply Hc.
  - intros rows c [Hc Hrows]. revert c Hc.
    apply keeps_bind.
    { apply keeps_for_each. intros x acc Hx. apply keeps_bill_candidate.
      by apply Hrows. }
    intros acc. apply keeps_bind; [apply keeps_commit|].
    intros _. apply keeps_ret.
Qed.

Lemma keeps_execute_tick w cfg :
  (forall e o, (epoch_snapshot w cfg).1 = Some e -> k.2 = e -> P o ->
     P (Some (from_option bump_windows first_window o))) ->
  (forall e s x, (epoch_snapshot w cfg).1 = Some e -> row_prop P k s ->
     x ∈ select_billing_candidates e s -> candidate_key x ≠ k) ->
  keeps (both (row_prop P k)) (execute_tick w cfg).
Proof.
  intros Hinc Hcand. unfold execute_tick.
  apply keeps_bind; [by apply keeps_process_due_agents|]. intros stream.
  apply keeps_bind; [by apply keeps_bill_closed_epochs|]. intros billing.
  apply keeps_ret.
Qed.

(** Every call but the removal of an agent. *)
Lemma step_keeps_row c o :
  is_remove o = false ->
  (forall e o', observed_epoch o = Some e -> k.2 = e -> P o' ->
     P (Some (from_option bump_windows first_window o'))) ->
  (forall e s x, observed_epoch o = Some e -> row_prop P k s ->
     x ∈ select_billing_candidates e s -> candidate_key x ≠ k) ->
  both (row_prop P k) c -> both (row_prop P k) (step c o).
Proof.
  intros Hrm Hinc Hcand Hc. destruct o; simpl in *; try done;
    apply keeps_run; try done.
  - apply keeps_cli_enroll.
  - apply keeps_enroll_via_api.
  - apply keeps_set_status.
  - apply keeps_set_status.
  - by apply keeps_execute_tick.
Qed.

End KeepsRow.

(** ** Calls leave no transaction pending *)

Lemma ends_at_rest_bind {A B} (P : conn -> Prop) (m : Db A) (f : A -> Db B) :
  (forall a, triple (fun _ => True) (f a) (fun _ => at_rest) (fun _ => True)) ->
  triple P (bind m f) (fun _ => at_rest) (fun _ => True).
Proof.
  intros Hf. eapply (triple_bind _ (fun _ _ => True)); [|exact Hf].
  intros c _. by destruct (m c) as [c' [a|msg]].
Qed.

Lemma ends_at_rest_commit (P : conn -> Prop) :
  triple P commit (fun _ => at_rest) (fun _ => True).
Proof. by apply triple_commit. Qed.

Lemma at_rest_ret {A} (a : A) :
  triple at_rest (ret a) (fun _ => at_rest) (fun _ => True).
Proof. by apply triple_ret. Qed.

Lemma at_rest_raise {A} (P : conn -> Prop) msg :
  triple P (@raise A msg) (fun _ => at_rest) (fun _ => True).
Proof. by apply triple_raise. Qed.

Lemma at_rest_weaken {A} (m : Db A) :
  triple (fun _ => True) m (fun _ => at_rest) (fun _ => True) ->
  triple at_rest m (fun _ => at_rest) (fun _ => True).
Proof. intros H c _. by apply H. Qed.

Lemma ends_at_rest_enroll_agent w addr sig fee :
  triple (fun _ => True) (enroll_agent w addr sig fee)
    (fun _ => at_rest) (fun _ => True).
Proof.
  unfold enroll_agent. apply ends_at_rest_bind. intros ?.
  apply ends_at_rest_commit.
Qed.

Lemma at_rest_cli_enroll w addr sig fee :
  triple at_rest (cli_enroll w addr sig fee) (fun _ => at_rest) (fun _ => True).
Proof.
  unfold cli_enroll. destruct (negb _); [apply at_rest_raise|].
  apply at_rest_weaken, ends_at_rest_enroll_agent.
Qed.

Lemma at_rest_enroll_via_api w cfg addr sig fee :
  triple at_rest (_enroll_via_api w cfg addr sig fee)
    (fun _ => at_rest) (fun _ => True).
Proof.
  unfold _enroll_via_api.
  destruct (negb (_validate_agent_address addr)); [apply at_rest_raise|].
  destruct (negb (fee_bps_in_range fee)); [apply at_rest_raise|].
  destruct (negb (PyStr.truthy sig)); [apply at_rest_raise|].
  apply ends_at_rest_bind. intros pr.
  eapply triple_bind; [apply ends_at_rest_enroll_agent|]. intros ?.
  eapply triple_bind; [|intros ?; apply at_rest_ret].
  destruct (pr_end_stream_ms pr) as [e|]; [|apply at_rest_ret].
  destruct (negb (e =? 0)); [|apply at_rest_ret].
  apply ends_at_rest_bind. intros ?. apply ends_at_rest_commit.
Qed.

Lemma at_rest_set_status w addr st :
  triple at_rest (set_status w addr st) (fun _ => at_rest) (fun _ => True).
Proof.
  unfold set_status. apply ends_at_rest_bind. intros n.
  apply ends_at_rest_bind. intros ?.
  eapply triple_bind; [apply ends_at_rest_commit|]. intros ?.
  destruct (n =? 0)%nat; [apply at_rest_raise|apply at_rest_ret].
Qed.

Lemma at_rest_remove_agent addr :
  triple at_rest (remove_agent addr) (fun _ => at_rest) (fun _ => True).
Proof.
  unfold remove_agent. eapply triple_bind.
  - apply (triple_query _ (fun _ => at_rest)). auto.
  - intros [aid|]; [|apply at_rest_raise].
    apply ends_at_rest_bind. intros ?. apply ends_at_rest_commit.
Qed.

Lemma ends_at_rest_process_due_agents w cfg ce :
  triple (fun _ => True) (process_due_agents w cfg ce)
    (fun _ => at_rest) (fun _ => True).
Proof.
  unfold process_due_agents. apply ends_at_rest_bind. intros rows.
  apply ends_at_rest_bind. intros stats.
  eapply triple_bind; [apply ends_at_rest_commit|]. intros ?.
  apply at_rest_ret.
Qed.

Lemma at_rest_bill_closed_epochs w cfg ce :
  triple at_rest (bill_closed_epochs w cfg ce)
    (fun _ => at_rest) (fun _ => True).
Proof.
  unfold bill_closed_epochs.
  eapply triple_bind; [|intros acc; apply at_rest_ret].
  unfold bill_closed_epochs_issuing. destruct ce as [e|]; [|apply at_rest_ret].
  destruct (negb (billing_enabled cfg)); [apply at_rest_ret|].
  apply ends_at_rest_bind. intros rows.
  apply ends_at_rest_bind. intros acc.
  eapply triple_bind; [apply ends_at_rest_commit|]. intros ?.
  apply at_rest_ret.
Qed.

Lemma at_rest_execute_tick w cfg :
  triple at_rest (execute_tick w cfg) (fun _ => at_rest) (fun _ => True).
Proof.
  unfold execute_tick.
  eapply triple_bind;
    [apply at_rest_weaken, ends_at_rest_process_due_agents|]. intros ?.
  eapply triple_bind; [apply at_rest_bill_closed_epochs|]. intros ?.
  apply at_rest_ret.
Qed.

Lemma step_at_rest c o : at_rest c -> at_rest (step c o).
Proof.
  intros Hc.
  assert (forall A (m : Db A),
            triple at_rest m (fun _ => at_rest) (fun _ => True) ->
            at_rest (run m c)) as Hrun.
  { intros A m Hm. eapply triple_run; [exact Hm| |exact Hc]. by intros c' _. }
  destruct o; simpl; apply Hrun.
  - apply at_rest_cli_enroll.
  - apply at_rest_enroll_via_api.
  - apply at_rest_set_status.
  - apply at_rest_set_status.
  - apply at_rest_remove_agent.
  - apply at_rest_execute_tick.
Qed.

Lemma steps_at_rest os c : at_rest c -> at_rest (steps os c).
Proof.
  revert c. induction os as [|o os IH]; intros c Hc; [done|].
  simpl. apply IH. by apply step_at_rest.
Qed.

(** ** Billed usage rows *)

Lemma unbilled_increment o :
  unbilled o -> unbilled (Some (from_option bump_windows first_window o)).
Proof.
  intros Ho u [= <-]. destruct o as [u0|]; simpl; [by apply Ho|done].
Qed.

(** No candidate of the billing pass is a billed row. *)
Lemma candidate_not_billed ce s x u :
  x ∈ select_billing_candidates ce s ->
  usage_windows s !! candidate_key x = Some u -> uw_billed u = false.
Proof.
  intros (u' & a & Hu' & _ & Hb & _)%elem_of_select_billing_candidates Hu.
  by simplify_eq.
Qed.

(** A tick whose snapshot epoch is unknown, or not after the epoch of a
    row, does not bill that row. *)
Lemma tick_keeps_unbilled w cfg c aid epoch :
  (forall ce, (epoch_snapshot w cfg).1 = Some ce -> ce ≤ epoch) ->
  both (row_prop unbilled (aid, epoch)) c ->
  both (row_prop unbilled (aid, epoch)) (step c (Tick w cfg)).
Proof.
  intros Hce Hc. apply step_keeps_row; try done.
  - intros e o _ _. apply unbilled_increment.
  - intros e s x He _ Hx Hkey. apply Hce in He.
    apply elem_of_select_billing_candidates in Hx
      as (_ & _ & _ & _ & _ & Hlt & _).
    unfold candidate_key in Hkey. simplify_eq. lia.
Qed.

(** A row that a tick turns from unbilled to billed belongs to an epoch
    before the snapshot epoch of that tick. *)
Lemma billed_by_tick_is_closed w cfg c aid epoch u :
  at_rest c ->
  unbilled (usage_row c aid epoch) ->
  usage_row (step c (Tick w cfg)) aid epoch = Some u -> uw_billed u = true ->
  exists ce, (epoch_snapshot w cfg).1 = Some ce ∧ epoch < ce.
Proof.
  intros Hrest Hbefore Hu Hb.
  destruct (epoch_snapshot w cfg).1 as [ce|] eqn:Hsnap.
  - destruct (decide (epoch < ce)) as [Hlt|Hge]; [by exists ce|]. exfalso.
    destruct (tick_keeps_unbilled w cfg c aid epoch) as [_ Hw].
    { intros ce' Hce'. rewrite Hsnap in Hce'. simplify_eq. lia. }
    { split; [|done]. unfold row_prop. by rewrite Hrest. }
    apply Hw in Hu. congruence.
  - exfalso.
    destruct (tick_keeps_unbilled w cfg c aid epoch) as [_ Hw].
    { intros ce' Hce'. by rewrite Hsnap in Hce'. }
    { split; [|done]. unfold row_prop. by rewrite Hrest. }
    apply Hw in Hu. congruence.
Qed.

(** A billed row survives every call but the removal of its agent, as
    long as the ticks observe epochs after its own. *)
Lemma steps_keep_billed_row os c aid epoch u :
  uw_billed u = true ->
  Forall (fun o => is_remove o = false) os ->
  Forall (fun e => epoch < e) (reported_epochs os) ->
  both (row_prop (fun o => o = Some u) (aid, epoch)) c ->
  both (row_prop (fun o => o = Some u) (aid, epoch)) (steps os c).
Proof.
  intros Hb. revert c. induction os as [|o os IH]; intros c Hrm Hep Hc; [done|].
  apply Forall_cons in Hrm as [Hrm Hrms]. simpl. apply IH; [done| |].
  - unfold reported_epochs in *. simpl in Hep.
    destruct (observed_epoch o); [|done]. by apply Forall_cons in Hep as [_ ?].
  - apply step_keeps_row; try done.
    + intros e o' He Hk _. exfalso.
      unfold reported_epochs in Hep. simpl in Hep. rewrite He in Hep.
      apply Forall_cons in Hep as [Hlt _]. simpl in Hk. lia.
    + intros e s x _ Hs Hx Hkey. unfold row_prop in Hs.
      rewrite <- Hkey in Hs.
      pose proof (candidate_not_billed e s x u Hx Hs). congruence.
Qed.

(** C4: a usage row that a tick has set to billed never changes again,
    neither its windows nor its flag nor any other column, through any
    later ticks and admin calls other than the removal of the agent,
    provided the epochs the oracle reports do not decrease. *)
Theorem billed_row_is_terminal w cfg c os aid epoch u :
  at_rest c ->
  unbilled (usage_row c aid epoch) ->
  usage_row (step c (Tick w cfg)) aid epoch = Some u ->
  uw_billed u = true ->
  Forall (fun o => is_remove o = false) os ->
  Sorted Z.le (reported_epochs (Tick w cfg :: os)) ->
  usage_row (steps os (step c (Tick w cfg))) aid epoch = Some u.
Proof.
  intros Hrest Hbefore Hu Hb Hrm Hsorted.
  destruct (billed_by_tick_is_closed w cfg c aid epoch u Hrest Hbefore Hu Hb)
    as (ce & Hsnap & Hlt).
  apply (steps_keep_billed_row os (step c (Tick w cfg)) aid epoch u);
    [done|done| |].
  - unfold reported_epochs in Hsorted. simpl in Hsorted.
    rewrite Hsnap in Hsorted.
    apply Sorted_StronglySorted in Hsorted; [|intros ???; lia].
    apply StronglySorted_inv in Hsorted as [_ Hall].
    eapply Forall_impl; [exact Hall|]. intros e He. simpl in He. lia.
  - split; [|exact Hu]. unfold row_prop.
    rewrite (step_at_rest c (Tick w cfg) Hrest). exact Hu.
Qed.

Lemma billed_row_is_terminal_witness :
  let w42 := sample_world 1000 reply_unreachable (inl 42) (process_exit 0 "-") in
  let w43 := sample_world 2000000 (reply_armed 4000000) (inl 43)
               (process_exit 1 "nonce too low") in
  let cfg := sample_cfg true true in
  let billed := {| uw_windows := 1; uw_billed := true;
                   uw_billed_at_ms := Some 1000; uw_last_error := None |} in
  usage_row
    (steps [Tick w43 cfg; Pause w43 "claw1abc"; Tick w43 cfg]
       (step armed_conn (Tick w42 cfg))) 1 41
  = Some billed.
Proof.
  intros w42 w43 cfg billed.
  apply (billed_row_is_terminal w42 cfg armed_conn
           [Tick w43 cfg; Pause w43 "claw1abc"; Tick w43 cfg] 1 41 billed).
  - by vm_compute.
  - intros u Hu. vm_compute in Hu. by simplify_eq.
  - by vm_compute.
  - reflexivity.
  - repeat constructor.
  - change (Sorted Z.le [42; 43; 43]). repeat constructor; lia.
Defined.

(** The precondition of C4 is needed: when the oracle falls back to the
    epoch of a billed row, a successful arm adds a window to it. *)
Lemma billed_row_grows_when_epoch_falls_back :
  let w42 := sample_world 1000 reply_unreachable (inl 42) (process_exit 0 "-") in
  let w41 := sample_world 2000000 (reply_armed 4000000) (inl 41)
               (process_exit 0 "-") in
  let cfg := sample_cfg true true in
  let c := step armed_conn (Tick w42 cfg) in
  (uw_windows <$> usage_row c 1 41, uw_billed <$> usage_row c 1 41)
  = (Some 1, Some true)
  ∧ (uw_windows <$> usage_row (step c (Tick w41 cfg)) 1 41,
     uw_billed <$> usage_row (step c (Tick w41 cfg)) 1 41)
    = (Some 2, Some true).
Proof. by vm_compute. Qed.

(** ** The invariant under the admin statements *)

Lemma admin_update_refl a : admin_update a a.
Proof. unfold admin_update. auto. Qed.

(** A rewrite of the agents table that keeps its ids and changes rows
    by admin updates only. *)
Lemma store_ok_admin_update s m' :
  (forall aid, match agents s !! aid, m' !! aid with
               | Some a, Some a' => admin_update a a'
               | None, None => True
               | _, _ => False
               end) ->
  store_ok s -> store_ok (set_agents m' s).
Proof.
  intros Hm (Hcnt & Hfk & Hrs & Hag & Htx). split; [|split; [|split; [|split]]].
  - intros aid a' Ha'. simpl in *. specialize (Hm aid). rewrite Ha' in Hm.
    destruct (agents s !! aid) as [a|] eqn:Ha; [|done].
    destruct Hm as (-> & -> & _). by apply Hcnt.
  - intros r Hr. simpl in *. specialize (Hfk r Hr) as [a Ha].
    specialize (Hm (at_agent_id r)). rewrite Ha in Hm.
    destruct (m' !! at_agent_id r); [by eexists|done].
  - intros aid a' Ha'. simpl in *. specialize (Hm aid). rewrite Ha' in Hm.
    destruct (agents s !! aid) as [a|] eqn:Ha; [|done].
    destruct Hm as (_ & _ & Hk & _). apply Hk. by eapply Hrs.
  - intros aid a' e Ha' He. simpl in *. specialize (Hm aid). rewrite Ha' in Hm.
    destruct (agents s !! aid) as [a|] eqn:Ha; [|done].
    destruct Hm as (_ & _ & _ & [Hl|Hl]); [|congruence].
    eapply Hag; [done|]. by rewrite <- Hl.
  - exact Htx.
Qed.

Lemma store_ok_update_agent_by_id f aid s :
  (forall a, admin_update a (f a)) ->
  store_ok s -> store_ok (update_agent_by_id f aid s).
Proof.
  intros Hf. apply store_ok_admin_update. intros i.
  rewrite lookup_alter. destruct (decide (aid = i)) as [->|].
  - destruct (agents s !! i); simpl; [apply Hf|done].
  - destruct (agents s !! i); [apply admin_update_refl|done].
Qed.

Lemma store_ok_update_agents_by_address f addr s :
  (forall a, admin_update a (f a)) ->
  store_ok s -> store_ok (update_agents_by_address f addr s).
Proof.
  intros Hf. apply store_ok_admin_update. intros i.
  rewrite lookup_fmap. destruct (agents s !! i) as [a|]; simpl; [|done].
  destruct (decide _); [apply Hf|apply admin_update_refl].
Qed.

Lemma admin_update_reenroll sig fee ts a : admin_update a (reenroll sig fee ts a).
Proof. unfold admin_update. simpl. auto. Qed.

Lemma admin_update_with_status st ts a : admin_update a (with_status st ts a).
Proof. unfold admin_update. simpl. auto. Qed.

Lemma admin_update_probed_row e next ts a :
  admin_update a (probed_row e next ts a).
Proof.
  unfold admin_update. simpl.
  split; [done|split; [done|split; [lia|by right]]].
Qed.

Lemma store_ok_upsert_agent addr sig fee ts s :
  store_ok s -> store_ok (upsert_agent addr sig fee ts s).
Proof.
  intros Hok. unfold upsert_agent.
  destruct (select_agent_id addr s) as [aid|].
  { apply store_ok_update_agent_by_id; [apply admin_update_reenroll|done]. }
  destruct Hok as (Hcnt & Hfk & Hrs & Hag & Htx).
  pose proof (fresh_agent_id s) as Hfresh.
  set (aid := Z.max (agents_seq s) (max_agent_id s) + 1) in *.
  split; [|split; [|split; [|split]]]; simpl.
  - intros i a Ha. simpl in Ha |- *. apply lookup_insert_Some in Ha as [[<- <-]|[Hne Ha]].
    + simpl. rewrite !count_attempts_none; [done| |].
      all: intros r Hr Heq; destruct (Hfk r Hr) as [a Ha]; congruence.
    + by apply Hcnt.
  - intros r Hr. simpl in Hr |- *. destruct (Hfk r Hr) as [a Ha].
    rewrite lookup_insert. destruct (decide _); by eexists.
  - intros i a Ha. simpl in Ha |- *. apply lookup_insert_Some in Ha as [[<- <-]|[Hne Ha]].
    + done.
    + by eapply Hrs.
  - intros i a e Ha He. simpl in Ha |- *. apply lookup_insert_Some in Ha as [[<- <-]|[Hne Ha]].
    + done.
    + by eapply Hag.
  - exact Htx.
Qed.

Lemma store_ok_delete_agent_rows aid s :
  store_ok s -> store_ok (delete_agent_rows aid s).
Proof.
  intros (Hcnt & Hfk & Hrs & Hag & Hus & Hat & Hba).
  unfold delete_agent_rows.
  split; [|split; [|split; [|split; [|split; [|split]]]]]; simpl.
  - intros i a Ha. simpl in Ha |- *. apply lookup_delete_Some in Ha as [Hne Ha].
    rewrite !count_attempts_drop_other by done. by apply Hcnt.
  - intros r Hr. simpl in Hr |- *. apply list_elem_of_filter in Hr as [Hne Hr].
    rewrite lookup_delete_ne by done. by apply Hfk.
  - intros i a Ha. simpl in Ha |- *. apply lookup_delete_Some in Ha as [Hne Ha]. by eapply Hrs.
  - intros i a e Ha He. simpl in Ha |- *. apply lookup_delete_Some in Ha as [Hne Ha].
    by eapply Hag.
  - intros k u e Hu He. simpl in Hu |- *. apply map_lookup_filter_Some in Hu as [Hu _].
    by eapply Hus.
  - intros r Hr. simpl in Hr |- *. apply list_elem_of_filter in Hr as [_ Hr]. by apply Hat.
  - intros r Hr. simpl in Hr |- *. apply list_elem_of_filter in Hr as [_ Hr]. by apply Hba.
Qed.

(** ** The invariant under the billing statements *)

Lemma length_billing_error_text proc :
  (String.length (billing_error_text proc) <= 300)%nat.
Proof. apply length_slice_to. Qed.

Lemma store_ok_record_billing_attempt w row proc s :
  store_ok s -> store_ok (record_billing_attempt w row proc s).
Proof.
  intros (Hcnt & Hfk & Hrs & Hag & Hus & Hat & Hba).
  unfold record_billing_attempt.
  split; [|split; [|split; [|split; [|split; [|split]]]]]; simpl; try done.
  intros r Hr. simpl in Hr |- *. apply elem_of_app in Hr as [Hr|Hr]; [by apply Hba|].
  apply list_elem_of_singleton in Hr as ->. simpl.
  split; apply length_slice_to.
Qed.

Lemma store_ok_settlement_update w row proc aid epoch s :
  store_ok s ->
  store_ok (update_usage_window (settlement_update w row proc) aid epoch s).
Proof.
  intros (Hcnt & Hfk & Hrs & Hag & Hus & Hat & Hba).
  unfold update_usage_window.
  split; [|split; [|split; [|split; [|split; [|split]]]]]; simpl; try done.
  intros k u e Hu He. simpl in Hu |- *. rewrite lookup_alter in Hu.
  destruct (decide _) as [<-|]; [|by eapply Hus].
  destruct (usage_windows s !! (aid, epoch)) as [u0|] eqn:Hu0; simplify_eq/=.
  unfold settlement_update in He. destruct (returncode proc =? 0); simpl in He |- *.
  - done.
  - simplify_eq. apply length_billing_error_text.
Qed.

(** ** The invariant over histories *)

Lemma store_ok_enroll_agent w addr sig fee :
  keeps (both store_ok) (enroll_agent w addr sig fee).
Proof.
  unfold enroll_agent. apply keeps_bind; [|intros _; apply keeps_commit].
  apply keeps_execute. intros s. apply store_ok_upsert_agent.
Qed.

Lemma store_ok_cli_enroll w addr sig fee :
  keeps (both store_ok) (cli_enroll w addr sig fee).
Proof.
  unfold cli_enroll. destruct (negb _); [apply keeps_raise|].
  apply store_ok_enroll_agent.
Qed.

Lemma store_ok_enroll_via_api w cfg addr sig fee :
  keeps (both store_ok) (_enroll_via_api w cfg addr sig fee).
Proof.
  unfold _enroll_via_api.
  destruct (negb (_validate_agent_address addr)); [apply keeps_raise|].
  destruct (negb (fee_bps_in_range fee)); [apply keeps_raise|].
  destruct (negb (PyStr.truthy sig)); [apply keeps_raise|].
  apply keeps_bind.
  { destruct (intake_probe_stream cfg); [|apply keeps_ret].
    unfold probe_stream. destruct (negb _ && _);
      [apply keeps_raise|apply keeps_ret]. }
  intros pr. apply keeps_bind; [apply store_ok_enroll_agent|]. intros _.
  apply keeps_bind; [|intros _; apply keeps_ret].
  destruct (pr_end_stream_ms pr) as [e|]; [|apply keeps_ret].
  destruct (negb (e =? 0)); [|apply keeps_ret].
  apply keeps_bind; [|intros _; apply keeps_commit].
  apply keeps_execute. intros s. apply store_ok_update_agents_by_address.
  intros a. apply admin_update_probed_row.
Qed.

Lemma store_ok_set_status w addr st :
  keeps (both store_ok) (set_status w addr st).
Proof.
  unfold set_status. apply keeps_bind; [apply keeps_query|]. intros n.
  apply keeps_bind.
  { apply keeps_execute. intros s. apply store_ok_update_agents_by_address.
    intros a. apply admin_update_with_status. }
  intros _. apply keeps_bind; [apply keeps_commit|]. intros _.
  destruct (n =? 0)%nat; [apply keeps_raise|apply keeps_ret].
Qed.

Lemma store_ok_remove_agent addr : keeps (both store_ok) (remove_agent addr).
Proof.
  unfold remove_agent. apply keeps_bind; [apply keeps_query|].
  intros [aid|]; [|apply keeps_raise].
  apply keeps_bind; [|intros _; apply keeps_commit].
  apply keeps_execute. intros s. apply store_ok_delete_agent_rows.
Qed.

Lemma store_ok_process_due_agents w cfg ce :
  keeps (both store_ok) (process_due_agents w cfg ce).
Proof.
  intros c Hc.
  destruct (process_due_agents_store_ok w cfg ce c Hc)
    as (s' & stats & -> & _ & Hs').
  by split.
Qed.

Lemma store_ok_bill_candidate w cfg row acc :
  keeps (both store_ok) (bill_candidate w cfg row acc).
Proof.
  unfold bill_candidate.
  destruct (_run_bill_epoch _ _ _ _ _) as [proc|msg]; [|apply keeps_raise].
  apply keeps_bind.
  { apply keeps_execute. intros s. apply store_ok_record_billing_attempt. }
  intros _.
  pose proof (fun s => store_ok_settlement_update w row proc
                         (cd_agent_id row) (cd_epoch row) s) as Hup.
  unfold settlement_update in Hup.
  destruct (returncode proc =? 0);
    (apply keeps_bind; [by apply keeps_execute|intros _; apply keeps_ret]).
Qed.

Lemma store_ok_bill_closed_epochs w cfg ce :
  keeps (both store_ok) (bill_closed_epochs w cfg ce).
Proof.
  unfold bill_closed_epochs.
  apply keeps_bind; [|intros; apply keeps_ret].
  unfold bill_closed_epochs_issuing. destruct ce as [e|]; [|apply keeps_ret].
  destruct (negb (billing_enabled cfg)); [apply keeps_ret|].
  apply keeps_bind; [apply keeps_query|]. intros rows.
  apply keeps_bind.
  { apply keeps_for_each. intros x acc _. apply store_ok_bill_candidate. }
  intros acc. apply keeps_bind; [apply keeps_commit|].
  intros _. apply keeps_ret.
Qed.

Lemma store_ok_execute_tick w cfg : keeps (both store_ok) (execute_tick w cfg).
Proof.
  unfold execute_tick.
  apply keeps_bind; [apply store_ok_process_due_agents|]. intros stream.
  apply keeps_bind; [apply store_ok_bill_closed_epochs|]. intros billing.
  apply keeps_ret.
Qed.

Lemma step_store_ok c o : both store_ok c -> both store_ok (step c o).
Proof.
  intros Hc. destruct o; simpl; apply keeps_run; try done.
  - apply store_ok_cli_enroll.
  - apply store_ok_enroll_via_api.
  - apply store_ok_set_status.
  - apply store_ok_set_status.
  - apply store_ok_remove_agent.
  - apply store_ok_execute_tick.
Qed.

(** Every history from a new database ends in a store that satisfies
    the invariant. *)
Lemma steps_store_ok os c : both store_ok c -> both store_ok (steps os c).
Proof.
  revert c. induction os as [|o os IH]; intros c Hc; [done|].
  simpl. apply IH. by apply step_store_ok.
Qed.

Lemma history_store_ok os : store_ok (working (steps os (connect_db empty_store))).
Proof.
  apply (steps_store_ok os (connect_db empty_store)).
  split; apply store_ok_empty.
Qed.

(** ** Counters and the attempt log *)

(** C3, as stated, fails: a 403 "already streaming" reply without an
    end is logged with reason "already_streaming" and still counts as a
    failure. *)
Lemma bare_already_streaming_counts_as_failure :
  let c := enroll_then_tick reply_already_streaming_bare (sample_cfg true true) in
  (at_reason <$> attempts (working c), at_end_stream_ms <$> attempts (working c))
  = (["already_streaming"], [None])
  ∧ failure_count <$> agent_row c 1 = Some 1
  ∧ count_attempts failed_not_already_streaming 1 (attempts (working c)) = 0.
Proof. by vm_compute. Qed.

(** C3, amended: after any history from a new database, [success_count]
    of an agent is the number of its attempt rows with [ok] true and a
    non-zero end (the rows that applied ArmSuccess), and [failure_count]
    the number of its rows that applied neither ArmSuccess nor ReSync:
    all rows but those with [ok] true and a non-zero end and those with
    reason "already_streaming" and a non-zero end. A row with reason
    "already_streaming" and no end counts as a failure. *)
Theorem counters_match_attempt_log os aid a :
  let c := steps os (connect_db empty_store) in
  agent_row c aid = Some a ->
  success_count a
  = count_attempts
      (fun r => at_ok r && opt_truthy (at_end_stream_ms r))
      aid (attempts (working c))
  ∧ failure_count a
    = count_attempts
        (fun r => negb (at_ok r && opt_truthy (at_end_stream_ms r))
                  && negb (String.eqb (at_reason r) "already_streaming"
                           && opt_truthy (at_end_stream_ms r)))
        aid (attempts (working c)).
Proof.
  intros c Ha.
  destruct (history_store_ok os) as (Hcnt & _).
  destruct (Hcnt aid a Ha) as [Hs Hf]. split; [exact Hs|].
  rewrite Hf. unfold count_attempts. f_equal. f_equal.
  apply list_filter_iff. intros r.
  unfold applied_backoff, applied_resync, applied_arm_success.
  by destruct (at_ok r && opt_truthy (at_end_stream_ms r)).
Qed.

Lemma counters_match_attempt_log_witness :
  let c := enroll_then_tick reply_already_streaming_bare (sample_cfg true true) in
  success_count one_agent_row = 0
  ∧ exists a, agent_row c 1 = Some a
              ∧ failure_count a
                = count_attempts
                    (fun r => negb (at_ok r && opt_truthy (at_end_stream_ms r))
                              && negb (String.eqb (at_reason r) "already_streaming"
                                       && opt_truthy (at_end_stream_ms r)))
                    1 (attempts (working c)).
Proof.
  intros c. split; [reflexivity|].
  destruct (agent_row c 1) as [a|] eqn:Ha; [|by vm_compute in Ha].
  exists a. split; [reflexivity|].
  exact (proj2 (counters_match_attempt_log
                  [CliEnroll
                     (sample_world 1000 reply_already_streaming_bare (inl 42)
                        (process_exit 0 "-")) "claw1abc" "0xfeed" 500;
                   Tick
                     (sample_world 1000 reply_already_streaming_bare (inl 42)
                        (process_exit 0 "-")) (sample_cfg true true)]
                  1 a Ha)).
Defined.

(** ** Stored texts *)

Lemma length_failure_text status_code body :
  String.length (failure_text status_code body)
  = (String.length (PyStr.of_int status_code) + 2
     + Nat.min 300 (String.length body))%nat.
Proof.
  unfold failure_text. rewrite !length_append, length_slice_to_min.
  simpl. lia.
Qed.

(** C7, as stated, fails: after a 500 reply with a long body the
    [last_error] of the agent holds the status, a colon and 300
    characters of the body, 305 characters in all. *)
Lemma agent_last_error_exceeds_300 :
  let c := enroll_then_tick reply_long_error (sample_cfg true true) in
  (fun e => String.length <$> e) <$> (last_error <$> agent_row c 1)
  = Some (Some 305%nat).
Proof. by vm_compute. Qed.

(** C7, amended: after any history from a new database, the
    [last_error] of an agent is the decimal status code, a colon and a
    space, and the response body cut to 300 characters (so up to 302
    characters more than the status code); the [last_error] of a usage
    row has at most 300 characters; every stored response body and every
    stored stdout and stderr has at most 4000. *)
Theorem stored_texts_are_bounded os :
  let s := working (steps os (connect_db empty_store)) in
  (forall aid a e, agents s !! aid = Some a -> last_error a = Some e ->
     exists status_code body,
       e = (PyStr.of_int status_code ++ ": " ++ PyStr.slice_to 300 body)%string
       ∧ (String.length e
          <= String.length (PyStr.of_int status_code) + 302)%nat)
  ∧ (forall k u e, usage_windows s !! k = Some u -> uw_last_error u = Some e ->
       (String.length e <= 300)%nat)
  ∧ (forall r, r ∈ attempts s ->
       (String.length (at_response_body r) <= 4000)%nat)
  ∧ (forall r, r ∈ billing_attempts s ->
       (String.length (ba_stdout r) <= 4000)%nat
       ∧ (String.length (ba_stderr r) <= 4000)%nat).
Proof.
  intros s. destruct (history_store_ok os) as (_ & _ & _ & Hag & Hrest).
  split; [|exact Hrest].
  intros aid a e Ha He. destruct (Hag aid a e Ha He) as (code & body & ->).
  exists code, body. split; [reflexivity|].
  rewrite length_failure_text. lia.
Qed.

(** ** The scenarios of the specification, run on the model *)

(** First success: end 2000000, epoch 42, lead 360 s, no jitter, reward
    1.0, fee 500 bps. *)
Example scenario_first_success :
  let w := sample_world 1000 (reply_armed 2000000) (inl 42) (process_exit 0 "-") in
  let c := step one_agent_conn (Tick w (sample_cfg true true)) in
  (expected_end_ms <$> agent_row c 1, next_attempt_ms <$> agent_row c 1,
   success_count <$> agent_row c 1, fee_due_claw <$> agent_row c 1,
   uw_windows <$> usage_row c 1 42)
  = (Some (Some 2000000), Some (Some 1640000), Some 1, Some (500 / 10000)%float, Some 1).
Proof. by vm_compute. Qed.

(** Already streaming, with an end: the row is re-synchronised and
    nothing is counted. *)
Example scenario_already_streaming :
  let r := {| r_ok := false; r_status := 403; r_body := "Already Streaming";
              r_parsed := Some (<["end_stream" := JInt 5000]> ∅) |} in
  let w := sample_world 1000 r (inl 42) (process_exit 0 "-") in
  let c := step one_agent_conn (Tick w (sample_cfg true true)) in
  (expected_end_ms <$> agent_row c 1, retry_step <$> agent_row c 1,
   success_count <$> agent_row c 1, failure_count <$> agent_row c 1,
   usage_row c 1 42)
  = (Some (Some 5000), Some 0, Some 0, Some 0, None).
Proof. by vm_compute. Qed.

(** Epoch unavailable: the stream pass runs without a usage increment
    and the error is reported. *)
Example scenario_epoch_unavailable :
  let w := sample_world 1000 (reply_armed 2000000) (inr "down")
             (process_exit 0 "-") in
  let out := execute_tick w (sample_cfg true true) one_agent_conn in
  (success_count <$> agent_row out.1 1, usage_windows (working out.1),
   match out.2 with
   | Ok res => (tr_chain_epoch res, tr_epoch_error res)
   | Raise _ => (None, None)
   end)
  = (Some 1, ∅, (None, Some "down")).
Proof. by vm_compute. Qed.

(** Billing sweep at epoch 42: both rows of epoch 41 are billed, the
    paused agent's too; the row of epoch 42 is left alone. *)
Example scenario_billing_sweep :
  let w := sample_world 7000 reply_unreachable (inl 42) (process_exit 0 "-") in
  let out := bill_closed_epochs_issuing w (sample_cfg true true) (Some 42)
               (connect_db sweep_store) in
  ((fun u => (uw_windows u, uw_billed u, uw_billed_at_ms u))
     <$> usage_windows (durable out.1))
  = <[(1, 41) := (3, true, Some 7000)]>
      (<[(2, 41) := (1, true, Some 7000)]>
         (<[(1, 42) := (2, false, None)]> ∅))
  ∧ match out.2 with
    | Ok (_, issued) => candidate_call <$> issued = [(1, 41, 3); (2, 41, 1)]
    | Raise _ => False
    end.
Proof. by vm_compute. Qed.

(** Settlement failure: the rows stay unbilled with the error text and
    the attempts are logged with the exit code. *)
Example scenario_settlement_failure :
  let w := sample_world 7000 reply_unreachable (inl 42)
             (process_exit 1 "nonce too low") in
  let c := run (bill_closed_epochs w (sample_cfg true true) (Some 42))
             (connect_db sweep_store) in
  ((fun u => (uw_billed u, uw_last_error u))
     <$> usage_windows (durable c) !! (1, 41))
  = Some (false, Some "nonce too low")
  ∧ (fun r => (ba_ok r, ba_return_code r)) <$> billing_attempts (durable c)
    = [(false, 1); (false, 1)].
Proof. by vm_compute. Qed.
